(** * fsn-gas-faucet: a shallow embedding of [run.mjs]

  The service has one request handler ([POST /api/v1/retrieve]), one
  helper that signs and broadcasts the payout ([payoutFSN]), a websocket
  keeper ([keepWeb3Alive]) and a middleware stack whose first layer is a
  rate limiter.  Everything the handler awaits (MongoDB through Mongoose,
  the chain through web3, the clock) is outside the process; one run of
  the handler sees it through an [Env] record that fixes what each awaited
  call settles to, and the part of the outside that the handler changes
  (the claim collection, the transactions accepted by the network) is the
  [World] threaded through a state-and-exception monad.  [Async] cuts
  the same handler at its awaits, for requests that overlap. *)

From Stdlib Require Import ZArith String Ascii List Bool Lia HexString.
From stdpp Require Import base option list gmap strings.
Import ListNotations.

Set Warnings "-register-all".

Open Scope string_scope.
Open Scope list_scope.
Open Scope Z_scope.

(** ** JavaScript values that reach the handler *)

Module Js.

(** A thrown [Error] object: its [name] and its [message]. *)
Record exn : Type := Exn { name : string; message : string }.

(** [new Error(msg)] *)
Definition Error (msg : string) : exn := Exn "Error" msg.

(** A value produced by the JSON or the urlencoded body parser. *)
Inductive json : Type :=
| JNull
| JBool (b : bool)
| JNumber (literal : string)
| JString (s : string)
| JArray (items : list json)
| JObject (fields : list (string * json)).

(** [req.body] once a parser has filled it.  [bodyParser.json()] is in
    its default strict mode (objects and arrays only) and
    [bodyParser.urlencoded] yields an object, so the top-level value is one
    of these two; both are truthy. *)
Inductive parsed : Type :=
| PObject (fields : list (string * json))
| PArray (items : list json).

Fixpoint lookupKey (k : string) (fields : list (string * json)) : option json :=
  match fields with
  | [] => None
  | (k', v) :: rest => if String.eqb k' k then Some v else lookupKey k rest
  end.

(** [let { walletAddress } = req.body]: the property read; [None] is
    [undefined].  An array has no such property. *)
Definition getProp (b : parsed) (k : string) : option json :=
  match b with
  | PObject fields => lookupKey k fields
  | PArray _ => None
  end.

Definition lowerAscii (c : ascii) : ascii :=
  let n := nat_of_ascii c in
  if ((65 <=? n) && (n <=? 90))%nat then ascii_of_nat (n + 32) else c.

(** [String.prototype.toLowerCase] on the ASCII range; bytes of other
    characters are kept (none of them lower-cases to a hex digit or to [x]). *)
Fixpoint lower (s : string) : string :=
  match s with
  | EmptyString => EmptyString
  | String c rest => String (lowerAscii c) (lower rest)
  end.

Definition isString (v : option json) : bool :=
  match v with Some (JString _) => true | _ => false end.

(** [v.toLowerCase()] for [v] read from the body: only a string has the
    method; on [undefined] and [null] the property read throws, on any
    other value the call of an undefined method throws.  Both are
    [TypeError]s whose text is the engine's ([typeErrorMessage]). *)
Definition toLowerCase (typeErrorMessage : option json -> string)
           (v : option json) : exn + string :=
  match v with
  | Some (JString s) => inr (lower s)
  | _ => inl (Exn "TypeError" (typeErrorMessage v))
  end.

End Js.

(** ** The claim collection (Mongoose model [Address]) *)

Module Mongo.

(** Modelled from the spec: the schema of [models/Addresses.mjs] (the
    model file is not part of the sources at hand): a claim record has a
    [walletAddress], an [ipAddress] and a [lastVisit] date, here in
    milliseconds since the epoch. *)
Record Claim : Type := mkClaim {
  walletAddress : string;
  ipAddress : string;
  lastVisit : Z
}.

(** The collection in natural (insertion) order. *)
Definition Collection : Type := list Claim.

(** [{ walletAddress }] *)
Definition byWallet (w : string) (r : Claim) : bool :=
  String.eqb (walletAddress r) w.

(** [{ ipAddress, lastVisit: { $gte: since } }] *)
Definition byIpSince (ip : string) (since : Z) (r : Claim) : bool :=
  String.eqb (ipAddress r) ip && (since <=? lastVisit r).

(** [{ walletAddress, ipAddress }] *)
Definition byPair (w ip : string) (r : Claim) : bool :=
  String.eqb (walletAddress r) w && String.eqb (ipAddress r) ip.

(** [Model.findOne(filter).lean()]: the first matching document or [null]. *)
Definition findOne (filter : Claim -> bool) (c : Collection) : option Claim :=
  List.find filter c.

(** The first document matching [filter] gets the fields of the update. *)
Fixpoint setFirst (filter : Claim -> bool) (doc : Claim) (c : Collection)
  : Collection :=
  match c with
  | [] => []
  | r :: rest =>
      if filter r then doc :: rest else r :: setFirst filter doc rest
  end.

(** [Address.updateOne({walletAddress, ipAddress},
                       {walletAddress, ipAddress, lastVisit}, {upsert: true})]:
    the first document of the pair is updated; without one, a document
    with these fields is inserted. *)
Definition updateOne_upsert (w ip : string) (visit : Z) (c : Collection)
  : Collection :=
  let doc := mkClaim w ip visit in
  if List.existsb (byPair w ip) c
  then setFirst (byPair w ip) doc c
  else c ++ [doc].

Definition pairOf (r : Claim) : string * string :=
  (walletAddress r, ipAddress r).

(** At most one record per [(walletAddress, ipAddress)] pair. *)
Definition uniquePairs (c : Collection) : Prop := NoDup (List.map pairOf c).

End Mongo.

(** ** The request handler *)

Module Faucet.
Import Js Mongo.

Record Network : Type := { gateway : string; ID : Z }.

Definition FSN_MAINNET : Network :=
  {| gateway := "wss://mainnetpublicgateway1.fusionnetwork.io:10001"; ID := 32659 |}.
Definition FSN_TESTNET : Network :=
  {| gateway := "wss://testnetpublicgateway1.fusionnetwork.io:10001"; ID := 46688 |}.
Definition NETWORK : Network := FSN_TESTNET.

(** The transaction object built by [payoutFSN]. *)
Record Tx : Type := mkTx {
  from : string;
  to : string;
  asset : string;
  value : string;
  chainId : string;
  gas : option string;
  gasPrice : option string
}.

Record Receipt : Type := { transactionHash : string }.

(** What one run of the handler meets outside the process.  An awaited
    call settles to [inr v] (resolved with [v]) or to [inl e] (rejected
    with the error [e]); for the three Mongoose and Express calls whose
    value is computed from the world, the field only says whether the call
    fails ([Some e]) or goes through ([None]). *)
Record Env : Type := {
  (* the JavaScript engine: text of the TypeError of [v.toLowerCase()] *)
  typeErrorMessage : option json -> string;
  (* the engine's rendering of the Number [bal] in a template literal,
     given the balance in wei *)
  showBalance : N -> string;
  (* web3.utils.isAddress *)
  isAddress : string -> bool;
  (* web3.fsn.consts.FSNToken *)
  FSNToken : string;
  (* the clock at [moment()] and at [new Date()] *)
  momentNow : Z;
  dateNow : Z;
  (* the length, in milliseconds, of the calendar day that
     [moment().subtract("1", "days")] steps back over in the local time of
     the server: 24 hours, but 23 or 25 where the step crosses a
     daylight-saving change *)
  localDay : Z;
  (* Address.findOne({walletAddress}), Address.findOne({ipAddress, ...}),
     Address.updateOne(...) *)
  findWalletFails : option exn;
  findIpFails : option exn;
  updateFails : option exn;
  (* web3.eth.getBalance, in wei, and web3.eth.getTransactionCount *)
  getBalance : string -> exn + N;
  getTransactionCount : string -> exn + N;
  (* web3.eth.accounts.privateKeyToAccount(PRIVATE_KEY): FAUCET.address *)
  privateKeyToAccount : exn + string;
  (* web3.fsntx.buildSendAssetTx: the [gas] and [gasPrice] it returns.
     The transaction object is kept as [payoutFSN] wrote it: the input
     formatter of web3 may respell its [from] and [to] in place (lower
     case, 0x prefix); these spellings are not modelled *)
  buildSendAssetTx : Tx -> exn + (string * string);
  (* FAUCET.signTransaction: rawTransaction *)
  signTransaction : Tx -> exn + string;
  (* web3.eth.sendSignedTransaction *)
  sendSignedTransaction : string -> exn + Receipt;
  (* res.json *)
  jsonFails : option exn
}.

(** The state the handler can change: the claim collection and the
    transactions accepted by the network, oldest first. *)
Record World : Type := mkWorld {
  db : Collection;
  broadcasts : list Tx
}.

Inductive Response : Type :=
| SendStatus (code : Z)                        (* res.sendStatus(code) *)
| Send (code : Z) (text : string)              (* res.status(code).send(text) *)
| SendJson (code : Z) (txHash status : string) (* res.json({txHash, status}) *).

Definition statusCode (r : Response) : Z :=
  match r with
  | SendStatus c => c
  | Send c _ => c
  | SendJson c _ _ => c
  end.

Record Request : Type := {
  body : option parsed;                (* req.body; [None] is undefined *)
  xForwardedFor : option string;       (* req.headers["x-forwarded-for"] *)
  remoteAddress : string               (* req.socket.remoteAddress *)
}.

(** *** State and exceptions *)

Definition M (A : Type) : Type := World -> World * (exn + A).

Definition ret {A} (a : A) : M A := fun w => (w, inr a).
Definition throw {A} (e : exn) : M A := fun w => (w, inl e).
Definition bind {A B} (m : M A) (k : A -> M B) : M B :=
  fun w =>
    match m w with
    | (w', inl e) => (w', inl e)
    | (w', inr a) => k a w'
    end.
(** [try { m } catch (err) { h err }] *)
Definition tryCatch {A} (m : M A) (h : exn -> M A) : M A :=
  fun w =>
    match m w with
    | (w', inl e) => h e w'
    | (w', inr a) => (w', inr a)
    end.
(** [await p] for a promise the outside settles *)
Definition await {A} (p : exn + A) : M A := fun w => (w, p).

#[local] Notation "'let*' x ':=' c1 'in' c2" := (bind c1 (fun x => c2))
  (at level 10, x pattern, c1 at level 100, c2 at level 200).

Definition dbFind (fails : option exn) (filter : Claim -> bool)
  : M (option Claim) :=
  fun w =>
    match fails with
    | Some e => (w, inl e)
    | None => (w, inr (findOne filter (db w)))
    end.

Definition dbUpsert (fails : option exn) (wa ip : string) (visit : Z) : M unit :=
  fun w =>
    match fails with
    | Some e => (w, inl e)
    | None => (mkWorld (updateOne_upsert wa ip visit (db w)) (broadcasts w), inr tt)
    end.

(** The network accepts the signed form of [tx]. *)
Definition send (env : Env) (tx : Tx) (rawTransaction : string) : M Receipt :=
  fun w =>
    match sendSignedTransaction env rawTransaction with
    | inl e => (w, inl e)
    | inr receipt => (mkWorld (db w) (broadcasts w ++ [tx]), inr receipt)
    end.

(** *** [payoutFSN] *)

(** [web3.utils.toWei(n, "gwei")] *)
Definition toWei_gwei (n : Z) : Z := n * 10 ^ 9.
(** [web3.utils.toHex] of a number or of a decimal string *)
Definition toHex (n : Z) : string := HexString.of_Z n.

Definition payoutTx (env : Env) (faucet addr : string) : Tx :=
  {| from := faucet;
     to := addr;
     asset := FSNToken env;
     value := toHex (toWei_gwei 2);
     chainId := toHex (ID NETWORK);
     gas := None;
     gasPrice := None |}.

Definition withGas (tx : Tx) (g p : string) : Tx :=
  {| from := from tx; to := to tx; asset := asset tx; value := value tx;
     chainId := chainId tx; gas := Some g; gasPrice := Some p |}.

Definition payoutFSN (env : Env) (addr : string) : M Receipt :=
  let* FAUCET := await (privateKeyToAccount env) in
  let tx := payoutTx env FAUCET addr in
  let* gp := await (buildSendAssetTx env tx) in
  let tx := withGas tx (fst gp) (snd gp) in
  tryCatch
    (let* rawTx := await (signTransaction env tx) in
     let* sent := send env tx rawTx in
     ret sent)
    (* the second argument of [new Error] is not part of the message *)
    (fun err => throw (Error "Sending faucet gas failed: ")).

(** *** [app.post("/api/v1/retrieve", ...)] *)

(** 24 hours, in milliseconds. *)
Definition ONE_DAY_MS : Z := 24 * 60 * 60 * 1000.

(** [moment().subtract("1", "days").toDate()]: one calendar day before the
    clock of [moment()], in the local time of the server. *)
Definition ONE_DAY (env : Env) : Z := momentNow env - localDay env.

(** [req.headers["x-forwarded-for"] || req.socket.remoteAddress]: an
    absent or empty header is falsy. *)
Definition clientIp (req : Request) : string :=
  match xForwardedFor req with
  | Some h => if String.eqb h "" then remoteAddress req else h
  | None => remoteAddress req
  end.

Definition msgInvalid : string := "Wallet address does not appear to be valid.".
Definition msgWalletClaimed : string := "Address has already claimed gas.".
Definition msgIpClaimed : string :=
  "Your IP has already claimed gas for an address recently.".
Definition msgUsed : string := "Must be a new, unused address.".
Definition msgBalance (env : Env) (wei : N) : string :=
  ("Address has a non-zero balance: " ++ showBalance env wei)%string.
Definition msgSuccess (walletAddress : string) : string :=
  ("Success. Gas will be sent to " ++ walletAddress ++ " shortly.")%string.

(** Truthiness of the result of [findOne]: a document is truthy, [null] is not. *)
Definition found (doc : option Claim) : bool :=
  match doc with Some _ => true | None => false end.

(** The [if / else if] chain of lines 134-142.  [bal] is the Number read
    from the ether string of the balance; it is falsy exactly when the
    balance in wei is zero. *)
Definition eligibility (env : Env) (walletAppliedRecently ipRecent : option Claim)
           (txCount wei : N) : M unit :=
  if found walletAppliedRecently then throw (Error msgWalletClaimed)
  else if found ipRecent then throw (Error msgIpClaimed)
  else if negb (txCount =? 0)%N then throw (Error msgUsed)
  else if negb (wei =? 0)%N then throw (Error (msgBalance env wei))
  else ret tt.

Definition resJson (env : Env) (txHash status : string) : M Response :=
  match jsonFails env with
  | Some e => throw e
  | None => ret (SendJson 200 txHash status)
  end.

(** The body of the [try] block. *)
Definition tryBlock (env : Env) (req : Request) : M Response :=
  match body req with
  | None => ret (SendStatus 400)
  | Some b =>
      let* walletAddress :=
        await (toLowerCase (typeErrorMessage env) (getProp b "walletAddress")) in
      if negb (isAddress env walletAddress) then throw (Error msgInvalid)
      else
        let ipAddress := clientIp req in
        let ONE_DAY := ONE_DAY env in
        let* walletAppliedRecently :=
          dbFind (findWalletFails env) (byWallet walletAddress) in
        let* ipRecent :=
          dbFind (findIpFails env) (byIpSince ipAddress ONE_DAY) in
        let* bal := await (getBalance env walletAddress) in
        let* txCount := await (getTransactionCount env walletAddress) in
        let* _ := eligibility env walletAppliedRecently ipRecent txCount bal in
        let* sent := payoutFSN env walletAddress in
        let txHash := transactionHash sent in
        let* _ := dbUpsert (updateFails env) walletAddress ipAddress (dateNow env) in
        resJson env txHash (msgSuccess walletAddress)
  end.

(** The handler: the [try] block under the top-level [catch], as the run
    of one request from its first line to its answer with no other request
    running between its awaits.  [Async.handlerT] below is the same code cut
    at its awaits. *)
Definition handler (env : Env) (req : Request) (w : World) : World * Response :=
  match tryBlock env req w with
  | (w', inr response) => (w', response)
  | (w', inl err) => (w', Send 400 (message err))
  end.

(** Requests handled one after the other, each in its own environment. *)
Fixpoint serve (rs : list (Env * Request)) (w : World) : World :=
  match rs with
  | [] => w
  | (env, req) :: rest => serve rest (fst (handler env req w))
  end.

End Faucet.

(** ** Requests in flight

    The handler is an [async] function: at each [await] it hands control
    back to the event loop, and other requests may run before it is resumed.
    [Faucet.handler] is the run of a request during which no other request
    runs; here the same code is cut at its awaits. *)

Module Async.
Import Js Mongo Faucet.

(** A request in flight: answered, failed, or suspended at an [await].
    When the event loop resumes it, the awaited call takes effect on the
    world as it then is ([effect]) and the code runs on to its next
    [await] ([next], which sees the world the call has met). *)
Inductive Task (A : Type) : Type :=
| Done (a : A)
| Failed (e : exn)
| Await (effect : World -> World) (next : World -> Task A).

Arguments Done {A} a.
Arguments Failed {A} e.
Arguments Await {A} effect next.

Fixpoint bindT {A B} (t : Task A) (k : A -> Task B) : Task B :=
  match t with
  | Done a => k a
  | Failed e => Failed e
  | Await effect next => Await effect (fun w => bindT (next w) k)
  end.

(** [try { t } catch (err) { h err }] *)
Fixpoint catchT {A} (t : Task A) (h : exn -> Task A) : Task A :=
  match t with
  | Done a => Done a
  | Failed e => h e
  | Await effect next => Await effect (fun w => catchT (next w) h)
  end.

(** [await m] for a call [m] to the database or to the chain *)
Definition awaitT {A} (m : M A) : Task A :=
  Await (fun w => fst (m w))
        (fun w => match snd (m w) with inl e => Failed e | inr a => Done a end).

(** A value or an exception of code that runs without an [await]. *)
Definition nowT {A} (r : exn + A) : Task A :=
  match r with inl e => Failed e | inr a => Done a end.

Definition payoutFSNT (env : Env) (addr : string) : Task Receipt :=
  bindT (awaitT (await (privateKeyToAccount env))) (fun FAUCET =>
  let tx := payoutTx env FAUCET addr in
  bindT (awaitT (await (buildSendAssetTx env tx))) (fun gp =>
  let tx := withGas tx (fst gp) (snd gp) in
  catchT
    (bindT (awaitT (await (signTransaction env tx))) (fun rawTx =>
     bindT (awaitT (send env tx rawTx)) (fun sent =>
     Done sent)))
    (fun err => Failed (Error "Sending faucet gas failed: ")))).

(** The [if / else if] chain of lines 134-142; it runs between two awaits. *)
Definition eligibilityT (env : Env) (walletAppliedRecently ipRecent : option Claim)
           (txCount wei : N) : Task unit :=
  if found walletAppliedRecently then Failed (Error msgWalletClaimed)
  else if found ipRecent then Failed (Error msgIpClaimed)
  else if negb (txCount =? 0)%N then Failed (Error msgUsed)
  else if negb (wei =? 0)%N then Failed (Error (msgBalance env wei))
  else Done tt.

Definition resJsonT (env : Env) (txHash status : string) : Task Response :=
  match jsonFails env with
  | Some e => Failed e
  | None => Done (SendJson 200 txHash status)
  end.

Definition tryBlockT (env : Env) (req : Request) : Task Response :=
  match body req with
  | None => Done (SendStatus 400)
  | Some b =>
      bindT (nowT (toLowerCase (typeErrorMessage env) (getProp b "walletAddress")))
            (fun walletAddress =>
      if negb (isAddress env walletAddress) then Failed (Error msgInvalid)
      else
        let ipAddress := clientIp req in
        let ONE_DAY := ONE_DAY env in
        bindT (awaitT (dbFind (findWalletFails env) (byWallet walletAddress)))
              (fun walletAppliedRecently =>
        bindT (awaitT (dbFind (findIpFails env) (byIpSince ipAddress ONE_DAY)))
              (fun ipRecent =>
        bindT (awaitT (await (getBalance env walletAddress))) (fun bal =>
        bindT (awaitT (await (getTransactionCount env walletAddress))) (fun txCount =>
        bindT (eligibilityT env walletAppliedRecently ipRecent txCount bal) (fun _ =>
        bindT (payoutFSNT env walletAddress) (fun sent =>
        let txHash := transactionHash sent in
        bindT (awaitT (dbUpsert (updateFails env) walletAddress ipAddress (dateNow env)))
              (fun _ =>
        resJsonT env txHash (msgSuccess walletAddress)))))))))
  end.

(** The handler in flight: the [try] block under the top-level [catch]. *)
Definition handlerT (env : Env) (req : Request) : Task Response :=
  catchT (tryBlockT env req) (fun err => Done (Send 400 (message err))).

(** A task run to its end with no other in between. *)
Fixpoint runT {A} (t : Task A) (w : World) : World * (exn + A) :=
  match t with
  | Done a => (w, inr a)
  | Failed e => (w, inl e)
  | Await effect next => runT (next w) (effect w)
  end.

(** The event loop resumes a task: it runs up to its next [await]. *)
Definition resume {A} (t : Task A) (w : World) : World * Task A :=
  match t with
  | Await effect next => (effect w, next w)
  | _ => (w, t)
  end.

(** The requests in flight, and one turn of the event loop, which resumes
    the [i]-th of them. *)
Definition Pool : Type := list (Task Response).

Definition tick (i : nat) (st : World * Pool) : World * Pool :=
  match snd st !! i with
  | Some t => (fst (resume t (fst st)), <[i := snd (resume t (fst st))]> (snd st))
  | None => st
  end.

Definition play (schedule : list nat) (st : World * Pool) : World * Pool :=
  List.fold_left (fun st i => tick i st) schedule st.

Definition arrivals (rs : list (Env * Request)) : Pool :=
  List.map (fun er => handlerT (fst er) (snd er)) rs.

(** The lower-cased address that the request carries, if it carries one. *)
Definition addressOf (req : Request) : string :=
  match body req with
  | Some b =>
      match getProp b "walletAddress" with
      | Some (JString raw) => lower raw
      | _ => ""
      end
  | None => ""
  end.

(** What a request in flight may still do.  Before its payout ([false]) a
    turn has no effect on the world, or has one transaction accepted; after
    it ([true]) a turn has no effect, or it is the one write of the request,
    the upsert of [a], [ip] and [t], after which the request is answered. *)
Inductive InFlight (a ip : string) (t : Z) : bool -> Task Response -> Prop :=
| InFlight_done (paid : bool) (r : Response) : InFlight a ip t paid (Done r)
| InFlight_unpaid (effect : World -> World) (next : World -> Task Response) :
    (forall w,
        (effect w = w /\ InFlight a ip t false (next w)) \/
        (db (effect w) = db w /\
         (exists tx, broadcasts (effect w) = broadcasts w ++ [tx]) /\
         InFlight a ip t true (next w))) ->
    InFlight a ip t false (Await effect next)
| InFlight_paid (effect : World -> World) (next : World -> Task Response) :
    (forall w,
        (effect w = w /\ InFlight a ip t true (next w)) \/
        (effect w = mkWorld (updateOne_upsert a ip t (db w)) (broadcasts w) /\
         exists r, next w = Done r)) ->
    InFlight a ip t true (Await effect next).

(** A task that is some request in flight. *)
Definition Flying (t : Task Response) : Prop :=
  exists a ip d paid, InFlight a ip d paid t.

End Async.

(** ** The websocket keeper *)

Module Keeper.

(** The object [web3] points to: the provider it was built on and its
    [_isConnected] property ([None] while it has never been assigned). *)
Record Web3 : Type := { ofProvider : nat; _isConnected : option bool }.

(** The module-level variables [provider] and [web3], the providers on which
    [keepWeb3Alive] has registered its three listeners, the pending
    [setTimeout] callbacks (each is [() => keepWeb3Alive()]; only the delay
    is kept, oldest first) and the calls of [disconnect()] made so far.
    Providers are identified by the order of their construction. *)
Record State : Type := mkState {
  provider : nat;
  web3 : Web3;
  listening : list nat;
  constructed : nat;
  timers : list Z;
  disconnects : list nat
}.

Definition RECONNECT_DELAY : Z := 500.

(** [keepWeb3Alive]: a new provider, the three listeners on it, a new
    [web3] on top of it. *)
Definition keepWeb3Alive (s : State) : State :=
  let p := constructed s in
  {| provider := p;
     web3 := {| ofProvider := p; _isConnected := None |};
     listening := listening s ++ [p];
     constructed := S p;
     timers := timers s;
     disconnects := disconnects s |}.

(** The state once the module has been evaluated: line 172 has called
    [keepWeb3Alive()] once. *)
Definition start : State :=
  keepWeb3Alive
    {| provider := 0%nat;
       web3 := {| ofProvider := 0%nat; _isConnected := None |};
       listening := []; constructed := 0%nat; timers := []; disconnects := [] |}.

Definition setConnected (b : bool) (s : State) : State :=
  {| provider := provider s;
     web3 := {| ofProvider := ofProvider (web3 s); _isConnected := Some b |};
     listening := listening s;
     constructed := constructed s;
     timers := timers s;
     disconnects := disconnects s |}.

(** The listeners read the module-level variables when they run, so they
    act on the current [web3] and [provider] whichever provider emits. *)
Definition onConnect (s : State) : State := setConnected true s.

Definition onError (s : State) : State :=
  {| provider := provider s; web3 := web3 s; listening := listening s;
     constructed := constructed s; timers := timers s;
     disconnects := disconnects s ++ [provider s] |}.

Definition onEnd (s : State) : State :=
  let s := setConnected false s in
  {| provider := provider s; web3 := web3 s; listening := listening s;
     constructed := constructed s;
     timers := timers s ++ [RECONNECT_DELAY];
     disconnects := disconnects s |}.

Inductive Event : Type :=
| Connect (p : nat)     (* provider [p] emits "connect" *)
| Error (p : nat)       (* provider [p] emits "error" *)
| End (p : nat)         (* provider [p] emits "end" *)
| Timeout.              (* the oldest pending timer fires *)

Definition hears (s : State) (p : nat) : bool :=
  List.existsb (Nat.eqb p) (listening s).

Definition step (s : State) (ev : Event) : State :=
  match ev with
  | Connect p => if hears s p then onConnect s else s
  | Error p => if hears s p then onError s else s
  | End p => if hears s p then onEnd s else s
  | Timeout =>
      match timers s with
      | [] => s
      | _ :: rest =>
          keepWeb3Alive
            {| provider := provider s; web3 := web3 s; listening := listening s;
               constructed := constructed s; timers := rest;
               disconnects := disconnects s |}
      end
  end.

Definition run (evs : list Event) (s : State) : State := List.fold_left step evs s.

(** The "end" events in [evs] that reach a listener, when run from [s]. *)
Fixpoint endsHeard (evs : list Event) (s : State) : nat :=
  match evs with
  | [] => 0%nat
  | ev :: rest =>
      ((match ev with End p => if hears s p then 1 else 0 | _ => 0 end)
       + endsHeard rest (step s ev))%nat
  end.

(** Timers set so far, pending or fired, counted with the providers
    constructed: a timer that fires constructs one provider. *)
Definition scheduled (s : State) : nat := (length (timers s) + constructed s)%nat.

(** Every pending timer has the one delay, and the current provider is
    one the keeper listens to. *)
Definition steady (s : State) : Prop :=
  Forall (fun d => d = RECONNECT_DELAY) (timers s) /\ hears s (provider s) = true.

(** One drop of the current connection followed by the reconnect. *)
Definition dropAndReconnect (s : State) : State :=
  step (step s (End (provider s))) Timeout.

End Keeper.

(** ** The rate limiter in front of every route *)

Module RateLimit.
Import Faucet.

(** The options of line 22-25. *)
Definition windowMs : Z := 15 * 60 * 1000.
Definition max : nat := 10.

(** Modelled from the spec: the in-memory store of the middleware returned
    by [rateLimit] (the express-rate-limit package, which is not part of the
    sources at hand): one hit counter per key, the key being the source IP
    of the request; every request increments the counter of its key. *)
Definition increment (key : string) (hits : gmap string nat) : gmap string nat * nat :=
  let current := S (default 0%nat (hits !! key)) in
  (<[key := current]> hits, current).

(** The hits counted for [ip] in the current window. *)
Definition hitsOf (ip : string) (hits : gmap string nat) : nat :=
  default 0%nat (hits !! ip).

(** Modelled from the spec: the limiter's standard limit-exceeded response
    (status 429 and the package's default message). *)
Definition limitExceeded : Response :=
  Send 429 "Too many requests, please try again later.".

(** Modelled from the spec: the middleware itself: at most [max] requests
    per key and window; [true] when it calls [next()], [false] when it
    answers [limitExceeded] itself. *)
Definition limiter (key : string) (hits : gmap string nat) : gmap string nat * bool :=
  let '(hits', current) := increment key hits in
  (hits', (current <=? max)%nat).

(** Modelled from the spec: the counters are cleared when a window of
    [windowMs] ends. *)
Definition resetAll (hits : gmap string nat) : gmap string nat := ∅.

(** A request as the stack receives it: the method and path it asks for
    and what the handler reads of it. *)
Record Incoming : Type := { method : string; path : string; request : Request }.

(** [req.ip], the limiter's key: the address of the peer. *)
Definition sourceIp (inc : Incoming) : string := remoteAddress (request inc).

(** [app.use(limiter)] comes before every other [app.use] and before the
    route, and is mounted without a path: a request of any method and path
    goes through the limiter first; [next] is the rest of the stack. *)
Definition app {S : Type} (next : Incoming -> S -> S * Response)
           (inc : Incoming) (st : gmap string nat * S)
  : (gmap string nat * S) * Response :=
  let '(hits', pass) := limiter (sourceIp inc) (fst st) in
  if pass
  then let '(s', response) := next inc (snd st) in ((hits', s'), response)
  else ((hits', snd st), limitExceeded).

(** The requests of one window that the limiter lets through, from the
    counters [hits] on. *)
Fixpoint admitted (reqs : list Incoming) (hits : gmap string nat) : list Incoming :=
  match reqs with
  | [] => []
  | inc :: rest =>
      let '(hits', pass) := limiter (sourceIp inc) hits in
      if pass then inc :: admitted rest hits' else admitted rest hits'
  end.

Definition fromIp (ip : string) (reqs : list Incoming) : list Incoming :=
  List.filter (fun inc => String.eqb (sourceIp inc) ip) reqs.

(** The requests of one window, in order of arrival. *)
Definition serveWindow {S : Type} (next : Incoming -> S -> S * Response)
           (reqs : list Incoming) (st : gmap string nat * S) : gmap string nat * S :=
  List.fold_left (fun st inc => fst (app next inc st)) reqs st.

(** A rest of the stack that only notes which requests reach it. *)
Definition recording (inc : Incoming) (log : list Incoming)
  : list Incoming * Response :=
  (log ++ [inc], SendStatus 200).

(** The rest of the stack for a request to the faucet route. *)
Definition faucetRoute (env : Env) (inc : Incoming) (w : World) : World * Response :=
  handler env (request inc) w.

End RateLimit.

(** ** Concrete environments and requests *)

Module Sample.
Import Js Mongo Faucet.

Definition hexDigit (c : ascii) : bool :=
  let n := nat_of_ascii c in
  (((48 <=? n) && (n <=? 57)) || ((97 <=? n) && (n <=? 102)))%nat.

Fixpoint allHex (s : string) : bool :=
  match s with
  | EmptyString => true
  | String c rest => hexDigit c && allHex rest
  end.

(** [web3.utils.isAddress] on a string without upper-case letters: an
    optional [0x] and forty hexadecimal digits. *)
Definition lowerHexAddress (s : string) : bool :=
  let digits :=
    match s with
    | String "0" (String "x" rest) => rest
    | _ => s
    end in
  (String.length digits =? 40)%nat && allHex digits.

Definition v8TypeError (v : option json) : string :=
  match v with
  | None => "Cannot read properties of undefined (reading 'toLowerCase')"
  | Some JNull => "Cannot read properties of null (reading 'toLowerCase')"
  | Some _ => "walletAddress.toLowerCase is not a function"
  end.

(** Every awaited call succeeds; the chain knows no balance and no
    transaction of any address; the server keeps its clock in UTC. *)
Definition calm : Env :=
  {| typeErrorMessage := v8TypeError;
     showBalance := fun _ => "2e-9";
     isAddress := lowerHexAddress;
     FSNToken := "0xffffffffffffffffffffffffffffffffffffffffffffffffffffffffffffffff";
     momentNow := 1700000000000;
     dateNow := 1700000000250;
     localDay := ONE_DAY_MS;
     findWalletFails := None;
     findIpFails := None;
     updateFails := None;
     getBalance := fun _ => inr 0%N;
     getTransactionCount := fun _ => inr 0%N;
     privateKeyToAccount := inr "0x00000000000000000000000000000000000fa0ce";
     buildSendAssetTx := fun _ => inr ("0x15f90", "0x3b9aca00");
     signTransaction := fun _ => inr "0xf86c";
     sendSignedTransaction := fun _ => inr {| transactionHash := "0x7a11" |};
     jsonFails := None |}.

(** [calm] with other outcomes for the chain queries, the broadcast, the
    claim-record write and the response, and another clock. *)
Definition despite (getBal : string -> exn + N)
           (sendTx : string -> exn + Receipt)
           (update json : option exn) (now : Z) : Env :=
  {| typeErrorMessage := typeErrorMessage calm;
     showBalance := showBalance calm;
     isAddress := isAddress calm;
     FSNToken := FSNToken calm;
     momentNow := now;
     dateNow := now + 250;
     localDay := ONE_DAY_MS;
     findWalletFails := None;
     findIpFails := None;
     updateFails := update;
     getBalance := getBal;
     getTransactionCount := getTransactionCount calm;
     privateKeyToAccount := privateKeyToAccount calm;
     buildSendAssetTx := buildSendAssetTx calm;
     signTransaction := signTransaction calm;
     sendSignedTransaction := sendTx;
     jsonFails := json |}.

Definition alice : string := "0x00000000000000000000000000000000000a11ce".
Definition ALICE : string := "0x00000000000000000000000000000000000A11CE".
Definition bob : string := "0x0000000000000000000000000000000000000b0b".

Definition post (walletAddress : json) (ip : string) : Request :=
  {| body := Some (PObject [("walletAddress", walletAddress)]);
     xForwardedFor := None;
     remoteAddress := ip |}.

Definition empty : World := {| db := []; broadcasts := [] |}.

(** [alice] claimed long before [momentNow calm], from another address. *)
Definition visited : World :=
  {| db := [mkClaim alice "192.0.2.7" 1600000000000]; broadcasts := [] |}.

(** The world after [alice] has been paid from 198.51.100.4 in [calm]. *)
Definition afterAlice : World :=
  fst (handler calm (post (JString alice) "198.51.100.4") empty).

Definition noBalance : string -> exn + N := fun _ => inr 0%N.
Definition accepted : string -> exn + Receipt := sendSignedTransaction calm.

(** A minute after [calm]. *)
Definition later : Env := despite noBalance accepted None None 1700000060000.

(** The network refuses the transaction. *)
Definition outOfFunds : Env :=
  despite noBalance
          (fun _ => inl (Error "insufficient funds for gas * price + value"))
          None None 1700000000000.

(** The websocket is down: the chain queries reject. *)
Definition chainDown : Env :=
  despite (fun _ => inl (Error "connection not open on send()"))
          accepted None None 1700000000000.

(** The write of the claim record is lost. *)
Definition writeLost : Env :=
  despite noBalance accepted (Some (Error "connection timed out")) None
          1700000000000.




End Sample.

(** ** The eligibility rules as the specification words them *)

Module Spec.
Import Js Mongo Faucet.

(** The five rejections, in the priority order of the specification. *)
Inductive Check : Type :=
| Malformed | WalletClaimed | IpClaimed | UsedAddress | HasBalance.

(** The first failing check, if any: malformed address, then wallet has ever
    claimed, then IP has claimed within 24 hours, then transaction count
    nonzero, then balance nonzero. *)
Definition firstFailing (malformed walletEverClaimed ipClaimedInLastDay : bool)
           (txCount balance : N) : option Check :=
  if malformed then Some Malformed
  else if walletEverClaimed then Some WalletClaimed
  else if ipClaimedInLastDay then Some IpClaimed
  else if negb (N.eqb txCount 0) then Some UsedAddress
  else if negb (N.eqb balance 0) then Some HasBalance
  else None.

Definition rejection (env : Env) (balance : N) (c : Check) : string :=
  match c with
  | Malformed => msgInvalid
  | WalletClaimed => msgWalletClaimed
  | IpClaimed => msgIpClaimed
  | UsedAddress => msgUsed
  | HasBalance => msgBalance env balance
  end.

(** Some record of the collection is of wallet [a]. *)
Definition walletEverClaimed (a : string) (c : Collection) : bool :=
  List.existsb (fun r => String.eqb (walletAddress r) a) c.

(** Some record of the collection is of address [ip] and dated [since]
    or later. *)
Definition ipClaimedSince (ip : string) (since : Z) (c : Collection) : bool :=
  List.existsb (fun r => String.eqb (ipAddress r) ip && (since <=? lastVisit r)) c.

(** The assumption under which the clauses on normal operation are read:
    the two lookups of a run for address [a] return, and the chain reports
    the balance [wei] and the transaction count [n] of [a]. *)
Definition lookupsReturn (env : Env) (a : string) (wei n : N) : Prop :=
  findWalletFails env = None /\ findIpFails env = None /\
  getBalance env a = inr wei /\ getTransactionCount env a = inr n.

(** The payout to [a] goes through: the faucet account is [faucet], the
    gas fields are [g] and [p], the signed form is [rawTx] and the network
    accepts it with [receipt]. *)
Definition payoutAccepted (env : Env) (a faucet g p rawTx : string)
           (receipt : Receipt) : Prop :=
  privateKeyToAccount env = inr faucet /\
  buildSendAssetTx env (payoutTx env faucet a) = inr (g, p) /\
  signTransaction env (withGas (payoutTx env faucet a) g p) = inr rawTx /\
  sendSignedTransaction env rawTx = inr receipt.

(** Every call that a paying run for address [a] awaits settles without
    an error. *)
Definition settles (env : Env) (a : string) : Prop :=
  (exists wei n, lookupsReturn env a wei n) /\
  (exists faucet g p rawTx receipt, payoutAccepted env a faucet g p rawTx receipt) /\
  updateFails env = None /\ jsonFails env = None.

End Spec.

(** ** Invariants of the ledger and of the keeper *)

Module Ledger.
Import Js Mongo Faucet.

(** Every stored wallet address is in lower case. *)
Definition normalised (c : Collection) : Prop :=
  Forall (fun r => lower (walletAddress r) = walletAddress r) c.

(** Every stored wallet address passes the validator [f]. *)
Definition validated (f : string -> bool) (c : Collection) : Prop :=
  Forall (fun r => f (walletAddress r) = true) c.

(** The addresses paid so far, oldest first, each as the request that was
    paid spelled it (lower-cased). *)
Definition recipients (w : World) : list string := List.map to (broadcasts w).

(** Every record is of an address that has been paid. *)
Definition recordedPaid (w : World) : Prop :=
  Forall (fun r => In (walletAddress r) (recipients w)) (db w).

(** Every run of [rs] validates addresses with [f]. *)
Definition sameValidator (f : string -> bool) (rs : list (Env * Request)) : Prop :=
  Forall (fun er => isAddress (fst er) = f) rs.




End Ledger.

Module Wiring.
Import Keeper.

(** The providers constructed so far all keep their listeners, the current
    provider is the one constructed last, and [web3] is built on it. *)
Definition wired (s : State) : Prop :=
  listening s = List.seq 0 (constructed s) /\
  constructed s = S (provider s) /\
  ofProvider (web3 s) = provider s.

End Wiring.

(** * Properties *)

Import Js Mongo Faucet Spec.

(** ** The collection *)

Lemma findOne_None (filter : Claim -> bool) (c : Collection) :
  findOne filter c = None <-> (forall r, In r c -> filter r = false).
Proof.
  unfold findOne. split.
  - intros H r Hr. exact (find_none filter c H r Hr).
  - induction c as [|x c IH]; simpl; intros H; [reflexivity|].
    rewrite (H x (or_introl eq_refl)). apply IH. intros r Hr. apply H. now right.
Qed.

Lemma findOne_existsb (filter : Claim -> bool) (c : Collection) :
  found (findOne filter c) = List.existsb filter c.
Proof.
  unfold findOne. induction c as [|x c IH]; simpl; [reflexivity|].
  destruct (filter x); simpl; [reflexivity | exact IH].
Qed.

Lemma byPair_byWallet (w ip : string) (r : Claim) :
  byPair w ip r = true -> byWallet w r = true.
Proof. unfold byPair, byWallet. intros H. apply andb_prop in H. tauto. Qed.

Lemma no_wallet_no_pair (w ip : string) (c : Collection) :
  findOne (byWallet w) c = None -> List.existsb (byPair w ip) c = false.
Proof.
  intros H. apply not_true_is_false. intros E.
  apply existsb_exists in E. destruct E as (r & Hr & Hp).
  apply byPair_byWallet in Hp.
  rewrite (proj1 (findOne_None _ _) H r Hr) in Hp. discriminate.
Qed.

Lemma upsert_absent (w ip : string) (t : Z) (c : Collection) :
  List.existsb (byPair w ip) c = false ->
  updateOne_upsert w ip t c = c ++ [mkClaim w ip t].
Proof. intros H. unfold updateOne_upsert. now rewrite H. Qed.

Lemma byPair_pairOf (w ip : string) (r : Claim) :
  byPair w ip r = true <-> pairOf r = (w, ip).
Proof.
  unfold byPair, pairOf. rewrite andb_true_iff, !String.eqb_eq.
  split; [intros [-> ->]; reflexivity | intros H; now inversion H].
Qed.

(** An update of an existing pair rewrites one document, in place. *)
Lemma setFirst_split (w ip : string) (t : Z) (c : Collection) :
  List.existsb (byPair w ip) c = true ->
  exists before r after,
    c = before ++ r :: after /\
    pairOf r = (w, ip) /\
    (forall x, In x before -> byPair w ip x = false) /\
    setFirst (byPair w ip) (mkClaim w ip t) c = before ++ mkClaim w ip t :: after.
Proof.
  induction c as [|x c IH]; simpl; [discriminate|].
  destruct (byPair w ip x) eqn:E; simpl.
  - intros _. exists [], x, c. simpl. repeat split; [now apply byPair_pairOf | tauto].
  - intros H. destruct (IH H) as (before & r & after & -> & Hr & Hb & Hs).
    exists (x :: before), r, after. simpl. rewrite Hs. repeat split; [exact Hr|].
    intros y [<- | Hy]; [exact E | now apply Hb].
Qed.

Lemma upsert_pairs (w ip : string) (t : Z) (c : Collection) :
  List.map pairOf (updateOne_upsert w ip t c) =
  if List.existsb (byPair w ip) c
  then List.map pairOf c
  else List.map pairOf c ++ [(w, ip)].
Proof.
  unfold updateOne_upsert. destruct (List.existsb (byPair w ip) c) eqn:E.
  - destruct (setFirst_split w ip t c E) as (before & r & after & Hc & Hr & _ & ->).
    rewrite Hc, !List.map_app. simpl. now rewrite Hr.
  - now rewrite List.map_app.
Qed.

Lemma upsert_unique (w ip : string) (t : Z) (c : Collection) :
  uniquePairs c -> uniquePairs (updateOne_upsert w ip t c).
Proof.
  unfold uniquePairs. intros H. rewrite upsert_pairs.
  destruct (List.existsb (byPair w ip) c) eqn:E; [exact H|].
  apply NoDup_app. split; [exact H|]. split; [|apply NoDup_singleton].
  intros p Hp Hin. apply list_elem_of_singleton in Hin. subst p.
  apply list_elem_of_In, in_map_iff in Hp. destruct Hp as (r & Hr & Hin).
  apply byPair_pairOf in Hr.
  assert (List.existsb (byPair w ip) c = true) as E'
    by (apply existsb_exists; eauto).
  congruence.
Qed.

Lemma upsert_keeps (w ip : string) (t : Z) (c : Collection) :
  List.map pairOf c `prefix_of` List.map pairOf (updateOne_upsert w ip t c).
Proof.
  rewrite upsert_pairs. destruct (List.existsb (byPair w ip) c).
  - reflexivity.
  - now apply prefix_app_r.
Qed.

(** ** Runs of the handler *)

Ltac unfold_run :=
  unfold handler, tryBlock, payoutFSN, eligibility, resJson, dbFind, dbUpsert,
    send, tryCatch, bind, await, ret, throw, toLowerCase in *.

(** Case analysis on the innermost scrutinee that stands in the goal. *)
Ltac split_run :=
  repeat
    (simpl in *;
     match goal with
     | |- context [match ?x with _ => _ end] =>
         lazymatch x with
         | context [match _ with _ => _ end] => fail
         | _ => destruct x eqn:?
         end
     end).

(** The status of the answer is 400, or the answer is the 200 of [res.json]. *)
Lemma handler_status (env : Env) (req : Request) (w : World) :
  statusCode (snd (handler env req w)) = 400 \/
  exists txHash status, snd (handler env req w) = SendJson 200 txHash status.
Proof.
  unfold_run. split_run; simpl; eauto.
Qed.

Lemma found_false (doc : option Claim) : found doc = false -> doc = None.
Proof. destruct doc; [discriminate | reflexivity]. Qed.

(** What one run does to the world: nothing, or one broadcast to an
    address without a record, followed or not by the upsert of its pair. *)
Lemma handler_world (env : Env) (req : Request) (w : World) :
  fst (handler env req w) = w \/
  exists a tx,
    findOne (byWallet a) (db w) = None /\
    to tx = a /\
    broadcasts (fst (handler env req w)) = broadcasts w ++ [tx] /\
    (db (fst (handler env req w)) = db w \/
     db (fst (handler env req w)) =
       updateOne_upsert a (clientIp req) (dateNow env) (db w)).
Proof.
  unfold_run. split_run; simpl; auto.
  all: repeat match goal with H : (_, _) = (_, _) |- _ => inversion H; clear H; subst end.
  all: simpl in *; try (left; reflexivity).
  all: right; eexists _, _; split; [apply found_false; eassumption|].
  all: split; [|split; [reflexivity|]]; simpl; auto.
Qed.




(** What a run of the handler that leaves a trace has gone through. *)
Lemma handler_effect (env : Env) (req : Request) (w : World) :
  fst (handler env req w) = w \/
  exists b raw tx,
    body req = Some b /\
    getProp b "walletAddress" = Some (JString raw) /\
    isAddress env (lower raw) = true /\
    findOne (byWallet (lower raw)) (db w) = None /\
    findOne (byIpSince (clientIp req) (ONE_DAY env)) (db w) = None /\
    getBalance env (lower raw) = inr 0%N /\
    getTransactionCount env (lower raw) = inr 0%N /\
    to tx = lower raw /\ value tx = "0x77359400" /\ chainId tx = "0xb660" /\
    broadcasts (fst (handler env req w)) = broadcasts w ++ [tx] /\
    db (fst (handler env req w)) =
      match updateFails env with
      | Some _ => db w
      | None => db w ++ [mkClaim (lower raw) (clientIp req) (dateNow env)]
      end.
Proof.
  unfold_run.
  destruct (body req) as [b|] eqn:Hb; [|now left].
  destruct (getProp b "walletAddress") as [[| | |raw| |]|] eqn:Hp; try now left.
  destruct (isAddress env (lower raw)) eqn:Hv; cbn [negb]; [|now left].
  destruct (findWalletFails env) eqn:Hfw; [now left|].
  destruct (findIpFails env) eqn:Hfi; [now left|].
  destruct (getBalance env (lower raw)) as [|wei] eqn:Hbal; [now left|].
  destruct (getTransactionCount env (lower raw)) as [|n] eqn:Htx; [now left|].
  destruct (found (findOne (byWallet (lower raw)) (db w))) eqn:Hw; [now left|].
  destruct (found (findOne (byIpSince _ _) (db w))) eqn:Hi; [now left|].
  destruct (N.eqb_spec n 0) as [->|]; cbn [negb]; [|now left].
  destruct (N.eqb_spec wei 0) as [->|]; cbn [negb]; [|now left].
  destruct (privateKeyToAccount env) as [|faucet] eqn:Hacc; [now left|].
  destruct (buildSendAssetTx env (payoutTx env faucet (lower raw)))
    as [|[g p]] eqn:Hgas; [now left|]. cbn [fst snd].
  destruct (signTransaction env _) as [|rawTx] eqn:Hsig; [now left|].
  destruct (sendSignedTransaction env rawTx) as [|receipt] eqn:Hsend; [now left|].
  apply found_false in Hw, Hi.
  right. exists b, raw, (withGas (payoutTx env faucet (lower raw)) g p).
  repeat (split; [solve [auto] |]).
  destruct (updateFails env) eqn:Hup; cbn.
  - split; reflexivity.
  - rewrite (upsert_absent _ _ _ _ (no_wallet_no_pair _ (clientIp req) _ Hw)).
    destruct (jsonFails env); cbn; split; reflexivity.
Qed.


Lemma lowerAscii_idem (c : ascii) : lowerAscii (lowerAscii c) = lowerAscii c.
Proof. destruct c as [[] [] [] [] [] [] [] []]; reflexivity. Qed.

Lemma lower_idem (s : string) : lower (lower s) = lower s.
Proof.
  induction s as [|c s IH]; cbn; [reflexivity|].
  now rewrite lowerAscii_idem, IH.
Qed.

(** One run, as the ledger sees it: nothing, or one payment to a
    lower-case, validated address without a record, with its record added
    at the end when the write goes through. *)
Lemma handler_step (env : Env) (req : Request) (w : World) :
  fst (handler env req w) = w \/
  exists a tx,
    isAddress env a = true /\ lower a = a /\
    (forall r, In r (db w) -> walletAddress r <> a) /\
    to tx = a /\
    broadcasts (fst (handler env req w)) = broadcasts w ++ [tx] /\
    db (fst (handler env req w)) =
      match updateFails env with
      | Some _ => db w
      | None => db w ++ [mkClaim a (clientIp req) (dateNow env)]
      end.
Proof.
  destruct (handler_effect env req w)
    as [->|(b & raw & tx & _ & _ & Hv & Hw & _ & _ & _ & Hto & _ & _ & Hbr & Hdb)];
    [now left|].
  right. exists (lower raw), tx. repeat split; auto using lower_idem.
  intros r Hr Ha. pose proof (proj1 (findOne_None _ _) Hw r Hr) as Hf.
  unfold byWallet in Hf. apply String.eqb_neq in Hf. contradiction.
Qed.

(** Records stay: over any sequence of requests, handled one after the
    other, the collection it started from is a prefix of the collection. *)
Lemma serve_keeps_records (rs : list (Env * Request)) (w : World) :
  db w `prefix_of` db (serve rs w).
Proof.
  revert w. induction rs as [|[env req] rs IH]; intros w; cbn; [reflexivity|].
  etransitivity; [|apply IH].
  destruct (handler_step env req w) as [->|(a & tx & _ & _ & _ & _ & _ & ->)];
    [reflexivity|].
  destruct (updateFails env); [reflexivity | now apply prefix_app_r].
Qed.

Lemma prefix_In {A : Type} (l k : list A) (x : A) : l `prefix_of` k -> In x l -> In x k.
Proof. intros [m ->] H. apply in_or_app. now left. Qed.

(** ** The success path *)




(** ** The order of the checks *)

Lemma walletEverClaimed_found (a : string) (c : Collection) :
  found (findOne (byWallet a) c) = walletEverClaimed a c.
Proof. apply findOne_existsb. Qed.

Lemma ipClaimedSince_found (ip : string) (since : Z) (c : Collection) :
  found (findOne (byIpSince ip since) c) = ipClaimedSince ip since c.
Proof. apply findOne_existsb. Qed.

Lemma byWallet_found (a : string) (c : Collection) (r : Claim) :
  In r c -> walletAddress r = a -> found (findOne (byWallet a) c) = true.
Proof.
  intros Hr Ha. rewrite findOne_existsb. apply existsb_exists.
  exists r. split; [exact Hr|]. unfold byWallet. now apply String.eqb_eq.
Qed.

(** C2 (as amended).  For a request that carries an address string and
    whose lookups and chain queries return (a malformed address needs
    none), with [wei] and [n] the balance and the transaction count they
    return and the IP window starting one calendar day of the server
    before the request: the first check that fails, in the order malformed
    address, wallet has ever claimed, IP has claimed within 24 hours,
    transaction count nonzero, balance nonzero, decides the answer, which
    is a 400 with the text of that check, and the world is left as it was
    (no payout, no record); when no check fails the chain of tests lets
    the request through. *)
Theorem checks_in_order (env : Env) (req : Request) (w : World) (b : parsed)
        (raw : string) (wei n : N) :
  body req = Some b ->
  getProp b "walletAddress" = Some (JString raw) ->
  (isAddress env (lower raw) = true -> lookupsReturn env (lower raw) wei n) ->
  match firstFailing (negb (isAddress env (lower raw)))
                     (walletEverClaimed (lower raw) (db w))
                     (ipClaimedSince (clientIp req) (ONE_DAY env) (db w))
                     n wei
  with
  | Some c => handler env req w = (w, Send 400 (rejection env wei c))
  | None =>
      eligibility env
        (findOne (byWallet (lower raw)) (db w))
        (findOne (byIpSince (clientIp req) (ONE_DAY env)) (db w))
        n wei w = (w, inr tt)
  end.
Proof.
  intros Hb Hp Hfetch.
  rewrite <- walletEverClaimed_found, <- ipClaimedSince_found.
  unfold firstFailing, handler, tryBlock, eligibility, bind, await, throw, ret,
    toLowerCase.
  rewrite Hb, Hp.
  destruct (isAddress env (lower raw)) eqn:Hv; cbn [negb]; [|reflexivity].
  destruct (Hfetch eq_refl) as (Hfw & Hfi & Hbal & Htx).
  unfold dbFind. rewrite Hfw, Hfi, Hbal, Htx.
  destruct (found (findOne (byWallet (lower raw)) (db w))); [reflexivity|].
  destruct (found (findOne (byIpSince _ _) (db w))); [reflexivity|].
  destruct (n =? 0)%N; cbn [negb]; [|reflexivity].
  destruct (wei =? 0)%N; cbn [negb]; reflexivity.
Qed.

Lemma checks_in_order_witness :
  handler Sample.calm (Sample.post (JString Sample.ALICE) "198.51.100.4") Sample.visited
  = (Sample.visited, Send 400 "Address has already claimed gas.").
Proof.
  apply (checks_in_order Sample.calm
           (Sample.post (JString Sample.ALICE) "198.51.100.4") Sample.visited
           (PObject [("walletAddress", JString Sample.ALICE)]) Sample.ALICE 0%N 0%N);
    [reflexivity | reflexivity | intros _; repeat split].
Defined.

(** C2, as stated, fails.  After [alice] was paid from an IP, a request
    for [bob] from that IP a minute later fails the IP check and no earlier
    one; but the websocket is down, the balance query rejects before the
    checks are run, and the answer carries the text of that error, not the
    one of the IP check. *)
Lemma checks_preempted_by_chain :
  isAddress Sample.chainDown Sample.bob = true /\
  walletEverClaimed Sample.bob (db Sample.afterAlice) = false /\
  ipClaimedSince "198.51.100.4" (momentNow Sample.chainDown - ONE_DAY_MS)
                 (db Sample.afterAlice) = true /\
  handler Sample.chainDown (Sample.post (JString Sample.bob) "198.51.100.4")
          Sample.afterAlice
  = (Sample.afterAlice, Send 400 "connection not open on send()") /\
  "connection not open on send()" <> msgIpClaimed.
Proof. repeat split. discriminate. Qed.

(** ** A wallet that has claimed *)

(** The answer to a request for an address with a record, in every
    environment: a 400 that leaves the world as it was; its text is the one
    of the validation, of the first lookup or chain query that fails, or,
    when all four return, the already-claimed one. *)
Lemma claimed_wallet_answer (env : Env) (req : Request) (w : World)
      (b : parsed) (raw : string) (r : Claim) :
  body req = Some b ->
  getProp b "walletAddress" = Some (JString raw) ->
  In r (db w) ->
  walletAddress r = lower raw ->
  handler env req w =
    (w, Send 400
          (if negb (isAddress env (lower raw)) then msgInvalid
           else
             match findWalletFails env, findIpFails env,
                   getBalance env (lower raw), getTransactionCount env (lower raw)
             with
             | Some e, _, _, _ => message e
             | None, Some e, _, _ => message e
             | None, None, inl e, _ => message e
             | None, None, inr _, inl e => message e
             | None, None, inr _, inr _ => msgWalletClaimed
             end)).
Proof.
  intros Hb Hp Hr Ha.
  pose proof (byWallet_found _ _ _ Hr Ha) as Hfound.
  unfold handler, tryBlock, eligibility, dbFind, bind, await, throw, toLowerCase.
  rewrite Hb, Hp.
  destruct (isAddress env (lower raw)); cbn [negb]; [|reflexivity].
  destruct (findWalletFails env); [reflexivity|].
  destruct (findIpFails env); [reflexivity|].
  destruct (getBalance env (lower raw)); [reflexivity|].
  destruct (getTransactionCount env (lower raw)); [reflexivity|].
  now rewrite Hfound.
Qed.

(** C4 (as amended).  When the collection holds a record of the address
    of the request, however old its [lastVisit], the handler answers 400
    and leaves the world as it was: nothing is paid, and the record is
    still there with the [lastVisit] it had.  The text of the 400 is the
    already-claimed one when the address passes validation and the two
    lookups and the two chain queries return; otherwise it is the text of
    the validation or of the first of these calls that fails. *)
Theorem claimed_wallet_rejected (env : Env) (req : Request) (w : World)
        (b : parsed) (raw : string) (r : Claim) :
  body req = Some b ->
  getProp b "walletAddress" = Some (JString raw) ->
  In r (db w) ->
  walletAddress r = lower raw ->
  fst (handler env req w) = w /\
  In r (db (fst (handler env req w))) /\
  snd (handler env req w) =
    Send 400
         (if negb (isAddress env (lower raw)) then msgInvalid
          else
            match findWalletFails env, findIpFails env,
                  getBalance env (lower raw), getTransactionCount env (lower raw)
            with
            | Some e, _, _, _ => message e
            | None, Some e, _, _ => message e
            | None, None, inl e, _ => message e
            | None, None, inr _, inl e => message e
            | None, None, inr _, inr _ => msgWalletClaimed
            end).
Proof.
  intros Hb Hp Hr Ha.
  rewrite (claimed_wallet_answer env req w b raw r Hb Hp Hr Ha). cbn. auto.
Qed.

Lemma claimed_wallet_rejected_witness :
  fst (handler Sample.later (Sample.post (JString Sample.ALICE) "198.51.100.4")
               Sample.visited) = Sample.visited /\
  In (mkClaim Sample.alice "192.0.2.7" 1600000000000)
     (db (fst (handler Sample.later (Sample.post (JString Sample.ALICE) "198.51.100.4")
                       Sample.visited))) /\
  snd (handler Sample.later (Sample.post (JString Sample.ALICE) "198.51.100.4")
               Sample.visited) = Send 400 msgWalletClaimed.
Proof.
  exact (claimed_wallet_rejected Sample.later
           (Sample.post (JString Sample.ALICE) "198.51.100.4") Sample.visited
           (PObject [("walletAddress", JString Sample.ALICE)]) Sample.ALICE
           (mkClaim Sample.alice "192.0.2.7" 1600000000000)
           eq_refl eq_refl (or_introl eq_refl) eq_refl).
Defined.

(** C4, as stated, fails.  The address has a record, but the websocket is
    down: the balance query rejects before the record is looked at, and the
    400 carries the text of that error, not the already-claimed one. *)
Lemma claimed_wallet_chain_down :
  In (mkClaim Sample.alice "192.0.2.7" 1600000000000) (db Sample.visited) /\
  handler Sample.chainDown (Sample.post (JString Sample.alice) "198.51.100.4")
          Sample.visited
  = (Sample.visited, Send 400 "connection not open on send()") /\
  "connection not open on send()" <> msgWalletClaimed.
Proof. split; [left; reflexivity|]. split; [reflexivity | discriminate]. Qed.

(** ** What a 200 tells *)

Lemma paid_inv (env : Env) (req : Request) (w w' : World) (c : Z) (h s : string) :
  handler env req w = (w', SendJson c h s) ->
  exists b raw,
    body req = Some b /\
    getProp b "walletAddress" = Some (JString raw) /\
    isAddress env (lower raw) = true /\
    findOne (byWallet (lower raw)) (db w) = None /\
    db w' = db w ++ [mkClaim (lower raw) (clientIp req) (dateNow env)] /\
    c = 200 /\
    settles env (lower raw).
Proof.
  unfold_run. unfold settles.
  destruct (body req) as [b|] eqn:Hb; [|discriminate].
  destruct (getProp b "walletAddress") as [[| | |raw| |]|] eqn:Hp; try discriminate.
  destruct (isAddress env (lower raw)) eqn:Hv; cbn [negb]; [|discriminate].
  destruct (findWalletFails env) eqn:Hfw; [discriminate|].
  destruct (findIpFails env) eqn:Hfi; [discriminate|].
  destruct (getBalance env (lower raw)) as [|wei] eqn:Hbal; [discriminate|].
  destruct (getTransactionCount env (lower raw)) as [|n] eqn:Htx; [discriminate|].
  destruct (found (findOne (byWallet (lower raw)) (db w))) eqn:Hw; [discriminate|].
  destruct (found (findOne (byIpSince _ _) (db w))) eqn:Hi; [discriminate|].
  destruct (n =? 0)%N; cbn [negb]; [|discriminate].
  destruct (wei =? 0)%N; cbn [negb]; [|discriminate].
  destruct (privateKeyToAccount env) as [|faucet] eqn:Hacc; [discriminate|].
  destruct (buildSendAssetTx env (payoutTx env faucet (lower raw)))
    as [|[g p]] eqn:Hgas; [discriminate|]. cbn [fst snd].
  destruct (signTransaction env _) as [|rawTx] eqn:Hsig; [discriminate|].
  destruct (sendSignedTransaction env rawTx) as [|receipt] eqn:Hsend; [discriminate|].
  destruct (updateFails env) eqn:Hup; [discriminate|].
  destruct (jsonFails env) eqn:Hjs; [discriminate|].
  cbn. intros H. inversion H; subst; clear H.
  apply found_false in Hw.
  exists b, raw. unfold lookupsReturn, payoutAccepted.
  repeat split; eauto 12.
  cbn. now rewrite (upsert_absent _ _ _ _ (no_wallet_no_pair _ (clientIp req) _ Hw)).
Qed.

Lemma byIpSince_found (ip : string) (since : Z) (c : Collection) (r : Claim) :
  In r c -> ipAddress r = ip -> since <= lastVisit r ->
  found (findOne (byIpSince ip since) c) = true.
Proof.
  intros Hr Hip Ht. rewrite findOne_existsb. apply existsb_exists.
  exists r. split; [exact Hr|]. unfold byIpSince.
  apply andb_true_iff. split; [now apply String.eqb_eq | now apply Z.leb_le].
Qed.

(** ** Two addresses from one IP *)




(** ** A payout answered with 400 *)




(** ** The top-level catch *)

(** The status of an answer is 400 in every run but those in which every
    awaited call settled, which are the only ones answered 200. *)
Lemma answered_400_or_settled (env : Env) (req : Request) (w : World) :
  statusCode (snd (handler env req w)) = 400 \/
  exists b raw txHash status,
    body req = Some b /\
    getProp b "walletAddress" = Some (JString raw) /\
    snd (handler env req w) = SendJson 200 txHash status /\
    settles env (lower raw).
Proof.
  destruct (handler_status env req w) as [H|(h & s & H)]; [now left|right].
  destruct (handler env req w) as [w' response] eqn:E. cbn in H. subst response.
  destruct (paid_inv _ _ _ _ _ _ _ E) as (b & raw & Hb & Hp & _ & _ & _ & _ & Hs).
  exists b, raw, h, s. auto.
Qed.

(** C6 (the code at the failing input).  For a request that passes every
    check, when signing the transaction or sending it fails with an error
    [cause], the top-level catch answers 400, but the text of the answer is
    the fixed text of line 97, whatever the message of [cause]: the error
    that [payoutFSN] throws in its place was built with that message as a
    second argument, which is no part of its message. *)
Theorem broadcast_failure_text (env : Env) (req : Request) (w : World) (b : parsed)
        (raw faucet g p : string) (cause : exn) :
  body req = Some b ->
  getProp b "walletAddress" = Some (JString raw) ->
  isAddress env (lower raw) = true ->
  findOne (byWallet (lower raw)) (db w) = None ->
  findOne (byIpSince (clientIp req) (ONE_DAY env)) (db w) = None ->
  lookupsReturn env (lower raw) 0 0 ->
  privateKeyToAccount env = inr faucet ->
  buildSendAssetTx env (payoutTx env faucet (lower raw)) = inr (g, p) ->
  (signTransaction env (withGas (payoutTx env faucet (lower raw)) g p) = inl cause \/
   exists rawTx,
     signTransaction env (withGas (payoutTx env faucet (lower raw)) g p) = inr rawTx /\
     sendSignedTransaction env rawTx = inl cause) ->
  handler env req w = (w, Send 400 "Sending faucet gas failed: ").
Proof.
  intros Hb Hp Hv Hw Hi (Hfw & Hfi & Hbal & Htx) Hacc Hgas Hfail.
  unfold_run. rewrite Hb, Hp, Hv. cbn [negb].
  rewrite Hfw, Hfi, Hw, Hi, Hbal, Htx. cbn.
  rewrite Hacc, Hgas. cbn.
  destruct Hfail as [Hsig|(rawTx & Hsig & Hsend)].
  - now rewrite Hsig.
  - now rewrite Hsig, Hsend.
Qed.

Lemma broadcast_failure_text_witness :
  handler Sample.outOfFunds (Sample.post (JString Sample.alice) "198.51.100.4")
          Sample.empty
  = (Sample.empty, Send 400 "Sending faucet gas failed: ").
Proof.
  refine (broadcast_failure_text Sample.outOfFunds
            (Sample.post (JString Sample.alice) "198.51.100.4") Sample.empty
            (PObject [("walletAddress", JString Sample.alice)]) Sample.alice
            "0x00000000000000000000000000000000000fa0ce" "0x15f90" "0x3b9aca00"
            (Error "insufficient funds for gas * price + value")
            eq_refl eq_refl eq_refl eq_refl eq_refl _ eq_refl eq_refl _).
  - repeat split.
  - right. exists "0xf86c". split; reflexivity.
Defined.

(** ** A body without a wallet address *)

(** C10.  When the parsed body has no [walletAddress] that is a string
    (the property is absent, or is null, a boolean, a number, an array or
    an object), the guard on the body does not answer; [toLowerCase] throws
    a TypeError before the validation and before any lookup, and the
    top-level catch answers 400 with the engine's text of that TypeError;
    nothing is paid or recorded.  The guard answers only when there is no
    body at all. *)
Theorem no_wallet_string (env : Env) (req : Request) (w : World) (b : parsed) :
  body req = Some b ->
  isString (getProp b "walletAddress") = false ->
  tryBlock env req w =
    (w, inl (Exn "TypeError" (typeErrorMessage env (getProp b "walletAddress")))) /\
  handler env req w =
    (w, Send 400 (typeErrorMessage env (getProp b "walletAddress"))) /\
  snd (handler env req w) <> SendStatus 400.
Proof.
  intros Hb Hs.
  assert (tryBlock env req w =
          (w, inl (Exn "TypeError" (typeErrorMessage env (getProp b "walletAddress")))))
    as Ht.
  { unfold tryBlock, bind, await, toLowerCase. rewrite Hb.
    destruct (getProp b "walletAddress") as [[| | |raw| |]|];
      try reflexivity; discriminate. }
  split; [exact Ht|]. unfold handler. rewrite Ht. split; [reflexivity | discriminate].
Qed.

Lemma no_wallet_string_witness :
  tryBlock Sample.calm
    {| body := Some (PObject [("address", JString Sample.alice)]);
       xForwardedFor := None; remoteAddress := "198.51.100.4" |} Sample.empty
  = (Sample.empty,
     inl (Exn "TypeError" "Cannot read properties of undefined (reading 'toLowerCase')")) /\
  handler Sample.calm
    {| body := Some (PObject [("address", JString Sample.alice)]);
       xForwardedFor := None; remoteAddress := "198.51.100.4" |} Sample.empty
  = (Sample.empty,
     Send 400 "Cannot read properties of undefined (reading 'toLowerCase')") /\
  snd (handler Sample.calm
    {| body := Some (PObject [("address", JString Sample.alice)]);
       xForwardedFor := None; remoteAddress := "198.51.100.4" |} Sample.empty)
  <> SendStatus 400.
Proof.
  apply (no_wallet_string Sample.calm
           {| body := Some (PObject [("address", JString Sample.alice)]);
              xForwardedFor := None; remoteAddress := "198.51.100.4" |}
           Sample.empty (PObject [("address", JString Sample.alice)]));
    reflexivity.
Defined.

(** The guard on the body answers when no parser has filled [req.body]. *)
Lemma no_body (env : Env) (req : Request) (w : World) :
  body req = None -> handler env req w = (w, SendStatus 400).
Proof. intros Hb. unfold handler, tryBlock. now rewrite Hb. Qed.

(** ** One record per pair *)

Lemma handler_unique (env : Env) (req : Request) (w : World) :
  uniquePairs (db w) -> uniquePairs (db (fst (handler env req w))).
Proof.
  intros Hu.
  destruct (handler_world env req w) as [->|(a & tx & _ & _ & _ & [->| ->])];
    auto using upsert_unique.
Qed.

(** From an empty collection, any sequence of requests keeps the pairs
    unique. *)
Lemma serve_unique (rs : list (Env * Request)) (w : World) :
  uniquePairs (db w) -> uniquePairs (db (serve rs w)).
Proof.
  revert w. induction rs as [|[env req] rs IH]; intros w Hw; cbn.
  - exact Hw.
  - apply IH. now apply handler_unique.
Qed.

(** *** Requests that overlap *)

Import Async.

Lemma runT_bind {A B} (t : Task A) (k : A -> Task B) (w : World) :
  runT (bindT t k) w =
  match runT t w with
  | (w', inl e) => (w', inl e)
  | (w', inr a) => runT (k a) w'
  end.
Proof.
  revert w. induction t as [a|e|effect next IH]; intros w; cbn.
  - destruct (runT (k a) w) as [w' [e|b]]; reflexivity.
  - reflexivity.
  - apply IH.
Qed.

Lemma runT_catch {A} (t : Task A) (h : exn -> Task A) (w : World) :
  runT (catchT t h) w =
  match runT t w with
  | (w', inl e) => runT (h e) w'
  | (w', inr a) => (w', inr a)
  end.
Proof.
  revert w. induction t as [a|e|effect next IH]; intros w; cbn.
  - reflexivity.
  - destruct (runT (h e) w) as [w' [e'|b]]; reflexivity.
  - apply IH.
Qed.

Lemma runT_await {A} (m : M A) (w : World) : runT (awaitT m) w = m w.
Proof. cbn. destruct (m w) as [w' [e|a]]; reflexivity. Qed.

(** A request that no other request overlaps runs as [handler] does. *)
Lemma runT_handlerT (env : Env) (req : Request) (w : World) :
  runT (handlerT env req) w =
  (fst (handler env req w), inr (snd (handler env req w))).
Proof.
  unfold handlerT, tryBlockT, payoutFSNT, eligibilityT, resJsonT, nowT, awaitT.
  unfold_run. cbn. split_run; reflexivity.
Qed.

(** One step of the case analysis of a request in flight. *)
Ltac fly :=
  repeat
    (cbn;
     match goal with
     | |- InFlight _ _ _ _ (Done _) => apply InFlight_done
     | |- InFlight _ _ _ false (Await _ _) => apply InFlight_unpaid; intros ?w
     | |- InFlight _ _ _ true (Await _ _) => apply InFlight_paid; intros ?w
     | |- context [match ?x with _ => _ end] =>
         lazymatch x with
         | context [match _ with _ => _ end] => fail
         | _ => destruct x eqn:?
         end
     | |- (_ /\ InFlight _ _ _ false _) \/ _ =>
         first [ left; split; [reflexivity|]
               | right; split; [reflexivity | split; [eexists; reflexivity|]] ]
     | |- (_ /\ InFlight _ _ _ true _) \/ _ =>
         first [ left; split; [reflexivity|]
               | right; split; [reflexivity | eexists; reflexivity] ]
     end).

(** The life of a request, whatever runs in between its turns: lookups
    and calls that leave the world as it is, then at most one accepted
    transaction, then at most one write, the upsert of its own pair. *)
Lemma handlerT_inflight (env : Env) (req : Request) :
  InFlight (addressOf req) (clientIp req) (dateNow env) false (handlerT env req).
Proof.
  unfold handlerT, tryBlockT, payoutFSNT, eligibilityT, resJsonT, nowT, awaitT,
    addressOf, dbFind, dbUpsert, send, await, toLowerCase.
  fly.
Qed.

Lemma resume_inflight (a ip : string) (t : Z) (paid : bool)
      (task : Task Response) (w : World) :
  InFlight a ip t paid task ->
  Flying (snd (resume task w)) /\
  (db (fst (resume task w)) = db w \/
   db (fst (resume task w)) = updateOne_upsert a ip t (db w)).
Proof.
  intros H. destruct H as [paid r|effect next H|effect next H]; cbn.
  - split; [|now left]. exists a, ip, t, paid. apply InFlight_done.
  - destruct (H w) as [[-> Hn]|(Hdb & _ & Hn)].
    + split; [|now left]. now exists a, ip, t, false.
    + split; [|now left]. now exists a, ip, t, true.
  - destruct (H w) as [[-> Hn]|(-> & r & ->)].
    + split; [|now left]. now exists a, ip, t, true.
    + split; [|now right]. exists a, ip, t, true. apply InFlight_done.
Qed.

(** One turn of the event loop changes the collection by nothing, or by
    the upsert of the request it resumes. *)
Lemma tick_flying (i : nat) (w : World) (pool : Pool) :
  Forall Flying pool ->
  Forall Flying (snd (tick i (w, pool))) /\
  (db (fst (tick i (w, pool))) = db w \/
   exists a ip t, db (fst (tick i (w, pool))) = updateOne_upsert a ip t (db w)).
Proof.
  intros Hp. unfold tick. cbn [fst snd].
  destruct (pool !! i) as [task|] eqn:E; cbn [fst snd]; [|split; [exact Hp | now left]].
  destruct (proj1 (Forall_lookup _ _) Hp i task E) as (a & ip & t & paid & Hfly).
  destruct (resume_inflight a ip t paid task w Hfly) as [Hn Hdb].
  split; [now apply Forall_insert|].
  destruct Hdb as [Hdb|Hdb]; [now left | right; eauto].
Qed.

Lemma play_flying (schedule : list nat) (w : World) (pool : Pool) :
  Forall Flying pool ->
  uniquePairs (db w) ->
  uniquePairs (db (fst (play schedule (w, pool)))) /\
  List.map pairOf (db w) `prefix_of` List.map pairOf (db (fst (play schedule (w, pool)))).
Proof.
  revert w pool. induction schedule as [|i schedule IH]; intros w pool Hp Hu; cbn.
  - split; [exact Hu | reflexivity].
  - destruct (tick_flying i w pool Hp) as [Hp' Hdb].
    destruct (tick i (w, pool)) as [w' pool'] eqn:E. cbn [fst snd] in *.
    assert (uniquePairs (db w') /\
            List.map pairOf (db w) `prefix_of` List.map pairOf (db w')) as [Hu' Hk].
    { destruct Hdb as [->|(a & ip & t & ->)].
      - split; [exact Hu | reflexivity].
      - split; [now apply upsert_unique | apply upsert_keeps]. }
    destruct (IH w' pool' Hp' Hu') as [Hu'' Hk'].
    split; [exact Hu'' | now transitivity (List.map pairOf (db w'))].
Qed.

Lemma arrivals_flying (rs : list (Env * Request)) : Forall Flying (arrivals rs).
Proof.
  unfold arrivals. induction rs as [|[env req] rs IH]; cbn; constructor; [|exact IH].
  exists (addressOf req), (clientIp req), (dateNow env), false.
  apply handlerT_inflight.
Qed.

(** The upsert, read off the fields of the records: with a record of the
    pair, the first one gets the new date, in place. *)
Lemma upsert_present (a ip : string) (t : Z) (c : Collection) :
  (exists r, In r c /\ walletAddress r = a /\ ipAddress r = ip) ->
  exists before r after,
    c = before ++ r :: after /\
    walletAddress r = a /\ ipAddress r = ip /\
    (forall x, In x before -> walletAddress x <> a \/ ipAddress x <> ip) /\
    updateOne_upsert a ip t c = before ++ mkClaim a ip t :: after.
Proof.
  intros (r & Hr & Ha & Hi).
  assert (List.existsb (byPair a ip) c = true) as E.
  { apply existsb_exists. exists r. split; [exact Hr|].
    apply byPair_pairOf. unfold pairOf. now rewrite Ha, Hi. }
  destruct (setFirst_split a ip t c E) as (before & r' & after & Hc & Hr' & Hb & Hs).
  assert (walletAddress r' = a /\ ipAddress r' = ip) as [Ha' Hi']
    by (unfold pairOf in Hr'; split; congruence).
  exists before, r', after.
  split; [exact Hc|]. split; [exact Ha'|]. split; [exact Hi'|]. split.
  - intros x Hx. pose proof (Hb x Hx) as Hf. unfold byPair in Hf.
    apply andb_false_iff in Hf.
    destruct Hf as [Hf|Hf]; apply String.eqb_neq in Hf; [now left | now right].
  - unfold updateOne_upsert. rewrite E. exact Hs.
Qed.

(** Without a record of the pair, one record is added at the end. *)
Lemma upsert_missing (a ip : string) (t : Z) (c : Collection) :
  (forall r, In r c -> walletAddress r <> a \/ ipAddress r <> ip) ->
  updateOne_upsert a ip t c = c ++ [mkClaim a ip t].
Proof.
  intros H. apply upsert_absent. apply not_true_is_false. intros E.
  apply existsb_exists in E. destruct E as (r & Hr & Hp).
  apply byPair_pairOf in Hp. unfold pairOf in Hp. inversion Hp.
  destruct (H r Hr); contradiction.
Qed.

(** Two requests for one address from one IP that overlap: both pass the
    lookups before either writes, both are paid, and the write of the
    second finds the record of the first and gives it its own date. *)
Lemma overlap_refreshes :
  let req := Sample.post (JString Sample.alice) "198.51.100.4" in
  let st := play [0; 0; 0; 0; 1; 1; 1; 1; 0; 0; 0; 0; 0; 1; 1; 1; 1; 1]%nat
                 (Sample.empty, arrivals [(Sample.calm, req); (Sample.later, req)]) in
  db (fst st) = [mkClaim Sample.alice "198.51.100.4" (dateNow Sample.later)] /\
  List.map to (broadcasts (fst st)) = [Sample.alice; Sample.alice] /\
  snd st = [Done (SendJson 200 "0x7a11" (msgSuccess Sample.alice));
            Done (SendJson 200 "0x7a11" (msgSuccess Sample.alice))].
Proof. vm_compute. repeat split. Qed.

(** C5 (as amended).  However the turns of the requests in flight are
    interleaved, a collection that holds at most one record per
    [(walletAddress, ipAddress)] pair keeps doing so, and the pairs it
    holds stay, in their order: nothing is deleted.  The life of every
    request is: turns that leave the world as it is, then at most one
    accepted transaction, then at most one write, the upsert of the pair of
    the request with the date of the request.  That upsert, when a record
    has the wallet address and the IP address of the pair, gives the first
    such record the new [lastVisit] and leaves the rest as it is; when no
    record has both, it adds one record at the end.  A request that no
    other request overlaps and that is answered with 200 has added exactly
    one record; a payout does not imply a record, since the write may
    fail.  (That a record is refreshed happens when requests overlap:
    [overlap_refreshes].) *)
Theorem one_record_per_pair (rs : list (Env * Request)) (schedule : list nat)
        (w : World) (a ip : string) (t : Z) (c : Collection) :
  uniquePairs (db w) ->
  (uniquePairs (db (fst (play schedule (w, arrivals rs)))) /\
   List.map pairOf (db w) `prefix_of`
     List.map pairOf (db (fst (play schedule (w, arrivals rs))))) /\
  Forall (fun er => InFlight (addressOf (snd er)) (clientIp (snd er)) (dateNow (fst er))
                             false (handlerT (fst er) (snd er))) rs /\
  ((exists r, In r c /\ walletAddress r = a /\ ipAddress r = ip) ->
   exists before r after,
     c = before ++ r :: after /\
     walletAddress r = a /\ ipAddress r = ip /\
     (forall x, In x before -> walletAddress x <> a \/ ipAddress x <> ip) /\
     updateOne_upsert a ip t c = before ++ mkClaim a ip t :: after) /\
  ((forall r, In r c -> walletAddress r <> a \/ ipAddress r <> ip) ->
   updateOne_upsert a ip t c = c ++ [mkClaim a ip t]) /\
  (forall env req,
      runT (handlerT env req) w = (fst (handler env req w), inr (snd (handler env req w))) /\
      match snd (handler env req w) with
      | SendJson _ _ _ =>
          db (fst (handler env req w)) =
            db w ++ [mkClaim (addressOf req) (clientIp req) (dateNow env)]
      | _ => True
      end).
Proof.
  intros Hu. split; [|split; [|split; [|split]]].
  - apply play_flying; [apply arrivals_flying | exact Hu].
  - apply Forall_forall. intros [env req] _. apply handlerT_inflight.
  - apply upsert_present.
  - apply upsert_missing.
  - intros env req. split; [apply runT_handlerT|].
    destruct (handler env req w) as [w' response] eqn:E.
    destruct response as [| |code h s]; try exact I.
    destruct (paid_inv _ _ _ _ _ _ _ E) as (b & raw & Hb & Hp & _ & _ & Hdb & _).
    cbn. unfold addressOf. now rewrite Hb, Hp.
Qed.

Lemma one_record_per_pair_witness :
  uniquePairs
    (db (fst (play [0; 0; 0; 0; 1; 1; 1; 1; 0; 0; 0; 0; 0; 1; 1; 1; 1; 1]%nat
                   (Sample.visited,
                    arrivals
                      [(Sample.calm, Sample.post (JString Sample.bob) "198.51.100.4");
                       (Sample.later, Sample.post (JString Sample.bob) "198.51.100.4")])))).
Proof.
  refine (proj1 (proj1 (one_record_per_pair
                   [(Sample.calm, Sample.post (JString Sample.bob) "198.51.100.4");
                    (Sample.later, Sample.post (JString Sample.bob) "198.51.100.4")]
                   [0; 0; 0; 0; 1; 1; 1; 1; 0; 0; 0; 0; 0; 1; 1; 1; 1; 1]%nat
                   Sample.visited Sample.bob "198.51.100.4" 0 [] _))).
  unfold uniquePairs. vm_compute.
  apply NoDup_cons_2; [intros H; inversion H | apply NoDup_nil_2].
Defined.

(** The claim as it was worded, at a payout whose write is lost: the pair
    has no record, the transaction is accepted, and no record is
    inserted. *)
Lemma payout_without_record :
  let req := Sample.post (JString Sample.alice) "198.51.100.4" in
  (forall r, In r (db Sample.empty) ->
             walletAddress r <> Sample.alice \/ ipAddress r <> "198.51.100.4") /\
  List.map to (broadcasts (fst (handler Sample.writeLost req Sample.empty))) =
    [Sample.alice] /\
  db (fst (handler Sample.writeLost req Sample.empty)) = [] /\
  fst (play [0; 0; 0; 0; 0; 0; 0; 0; 0]%nat
            (Sample.empty, arrivals [(Sample.writeLost, req)])) =
    fst (handler Sample.writeLost req Sample.empty).
Proof. vm_compute. repeat split. intros r []. Qed.

(** ** The keeper *)

Section KeeperFacts.
Import Keeper.

Lemma hears_spec (s : State) (p : nat) : hears s p = true <-> In p (listening s).
Proof.
  unfold hears. rewrite existsb_exists. split.
  - intros (q & Hq & E). apply Nat.eqb_eq in E. now subst.
  - intros H. exists p. split; [exact H | apply Nat.eqb_refl].
Qed.

Lemma step_scheduled (s : State) (ev : Event) :
  scheduled (step s ev) =
  (scheduled s + match ev with End p => if hears s p then 1 else 0 | _ => 0 end)%nat.
Proof.
  unfold scheduled.
  destruct ev as [p|p|p|]; cbn.
  1-3: destruct (hears s p); cbn; rewrite ?length_app; cbn; lia.
  destruct (timers s) as [|d rest] eqn:E; cbn; rewrite ?E; cbn; lia.
Qed.

Lemma run_scheduled (evs : list Event) (s : State) :
  scheduled (run evs s) = (scheduled s + endsHeard evs s)%nat.
Proof.
  revert s. induction evs as [|ev evs IH]; intros s; cbn.
  - lia.
  - unfold run in IH. rewrite IH, step_scheduled. lia.
Qed.

Lemma keepWeb3Alive_hears (s : State) :
  hears (keepWeb3Alive s) (provider (keepWeb3Alive s)) = true.
Proof.
  apply hears_spec. cbn. apply in_or_app. right. now left.
Qed.

Lemma step_steady (s : State) (ev : Event) : steady s -> steady (step s ev).
Proof.
  intros [Ht Hp]. unfold steady.
  destruct ev as [p|p|p|]; cbn; try destruct (hears s p); cbn; auto.
  - split; [|exact Hp]. apply Forall_app. split; [exact Ht | now constructor].
  - destruct (timers s) as [|d rest] eqn:E; [rewrite E; auto|].
    split; [cbn; now inversion Ht | apply keepWeb3Alive_hears].
Qed.

Lemma run_steady (evs : list Event) (s : State) : steady s -> steady (run evs s).
Proof.
  revert s. induction evs as [|ev evs IH]; intros s Hs; cbn; [exact Hs|].
  apply IH. now apply step_steady.
Qed.

Lemma start_steady : steady start.
Proof. split; [constructor | reflexivity]. Qed.

Lemma dropAndReconnect_steady (s : State) :
  steady s ->
  steady (dropAndReconnect s) /\
  constructed (dropAndReconnect s) = S (constructed s) /\
  provider (dropAndReconnect s) = constructed s /\
  length (timers (dropAndReconnect s)) = length (timers s).
Proof.
  intros Hs. split; [unfold dropAndReconnect; auto using step_steady|].
  destruct Hs as [_ Hp]. unfold dropAndReconnect. cbn. rewrite Hp. cbn.
  destruct (timers s); cbn; rewrite ?length_app; cbn; repeat split; lia.
Qed.

Lemma cycles (k : nat) (s : State) :
  steady s ->
  steady (Nat.iter k dropAndReconnect s) /\
  constructed (Nat.iter k dropAndReconnect s) = (constructed s + k)%nat.
Proof.
  intros Hs. induction k as [|k [IHs IHc]].
  - cbn. split; [exact Hs | lia].
  - rewrite Nat.iter_succ.
    destruct (dropAndReconnect_steady _ IHs) as (H1 & H2 & _).
    split; [exact H1 | rewrite H2, IHc; lia].
Qed.

(** C7.  In any state the keeper reaches, for an event of a provider it
    listens to: "connect" sets [_isConnected] to true and does nothing
    else; "error" calls [disconnect()] once, on the current provider, and
    sets no timer; "end" sets [_isConnected] to false and sets exactly one
    timer, of 500 ms, whatever the state.  Over any history, the timers set
    are as many as the "end" events heard and every pending one has the
    delay of 500 ms; and from any reached state, [k] successive drops of the
    current connection are followed by [k] reconnects, for every [k], after
    which the keeper listens to the new current provider again. *)
Theorem keeper_reconnects (evs : list Event) (p k : nat) :
  hears (run evs start) p = true ->
  let s := run evs start in
  step s (Connect p) = setConnected true s /\
  _isConnected (web3 (step s (Connect p))) = Some true /\
  disconnects (step s (Error p)) = disconnects s ++ [provider s] /\
  timers (step s (Error p)) = timers s /\
  _isConnected (web3 (step s (End p))) = Some false /\
  timers (step s (End p)) = timers s ++ [500] /\
  constructed (step s (End p)) = constructed s /\
  (length (timers s) + constructed s = 1 + endsHeard evs start)%nat /\
  Forall (fun d => d = 500) (timers s) /\
  constructed (Nat.iter k dropAndReconnect s) = (constructed s + k)%nat /\
  hears (Nat.iter k dropAndReconnect s)
        (provider (Nat.iter k dropAndReconnect s)) = true.
Proof.
  intros Hp s.
  pose proof (run_steady evs start start_steady) as Hs. fold s in Hs.
  pose proof (run_scheduled evs start) as Hn. fold s in Hn.
  destruct (cycles k s Hs) as [[_ Hk] Hc].
  fold s in Hp. unfold step. rewrite Hp.
  repeat split; try reflexivity; auto.
  exact (proj1 Hs).
Qed.

Lemma keeper_reconnects_witness :
  _isConnected (web3 (step (run [End 0%nat; Timeout] start) (End 1%nat))) = Some false /\
  timers (step (run [End 0%nat; Timeout] start) (End 1%nat)) = [500].
Proof.
  pose proof (keeper_reconnects [End 0%nat; Timeout] 1 3 eq_refl) as H.
  cbv zeta in H. split; [apply H | apply H].
Defined.

End KeeperFacts.

(** ** The rate limiter *)

Section RateLimitFacts.
Import RateLimit.

Lemma limiter_eq (key : string) (hits : gmap string nat) :
  limiter key hits =
  (<[key := S (hitsOf key hits)]> hits, (hitsOf key hits <? max)%nat).
Proof. reflexivity. Qed.

Lemma hitsOf_insert (ip key : string) (n : nat) (hits : gmap string nat) :
  hitsOf ip (<[key := n]> hits) = if String.eqb key ip then n else hitsOf ip hits.
Proof.
  unfold hitsOf. destruct (String.eqb_spec key ip) as [->|Hne].
  - now rewrite lookup_insert_eq.
  - now rewrite lookup_insert_ne.
Qed.

Lemma admitted_bound (reqs : list Incoming) (hits : gmap string nat) (ip : string) :
  (length (fromIp ip (admitted reqs hits)) + Nat.min max (hitsOf ip hits) <= max)%nat.
Proof.
  pose proof (eq_refl : max = 10%nat) as Hmax. unfold fromIp.
  revert hits. induction reqs as [|inc reqs IH]; intros hits; cbn [admitted].
  - cbn [List.filter length]. lia.
  - rewrite limiter_eq.
    specialize (IH (<[sourceIp inc := S (hitsOf (sourceIp inc) hits)]> hits)).
    rewrite hitsOf_insert in IH.
    destruct (Nat.ltb_spec (hitsOf (sourceIp inc) hits) max) as [Hlt|Hge];
      cbn [List.filter].
    + destruct (String.eqb_spec (sourceIp inc) ip) as [E|Hne]; cbn [length].
      * rewrite E in *. lia.
      * exact IH.
    + destruct (String.eqb_spec (sourceIp inc) ip) as [E|Hne].
      * rewrite E in *. lia.
      * exact IH.
Qed.

Lemma serveWindow_recording (reqs : list Incoming) (hits : gmap string nat)
      (log : list Incoming) :
  snd (serveWindow recording reqs (hits, log)) = log ++ admitted reqs hits.
Proof.
  unfold serveWindow.
  revert hits log. induction reqs as [|inc reqs IH]; intros hits log;
    cbn [List.fold_left admitted].
  - cbn. now rewrite app_nil_r.
  - unfold app. cbn [fst snd]. rewrite limiter_eq.
    destruct (hitsOf (sourceIp inc) hits <? max)%nat; cbn [fst snd recording].
    + rewrite IH. now rewrite <- app_assoc.
    + apply IH.
Qed.

(** C8.  The limiter is set to a window of 15 minutes and to 10 requests.
    Of the requests of one window, whatever their method and path, at most
    10 per source IP reach the rest of the stack.  A request finds the
    limiter first: when its IP has fewer than 10 hits in the window it is
    handed on; otherwise the limiter answers with its own response and the
    rest of the stack, the faucet handler included, does not run.  [reqs]
    are the requests of a window that starts with the counters cleared,
    whatever [before] they held. *)
Theorem ten_per_window (S : Type) (next : Incoming -> S -> S * Response)
        (env : Env) (reqs : list Incoming) (ip : string) (inc : Incoming)
        (before hits : gmap string nat) (s : S) (w : World) :
  windowMs = 15 * 60 * 1000 /\
  max = 10%nat /\
  (length (fromIp ip (snd (serveWindow recording reqs (resetAll before, []))))
   <= 10)%nat /\
  app next inc (hits, s) =
    (if (hitsOf (sourceIp inc) hits <? 10)%nat
     then ((<[sourceIp inc := Datatypes.S (hitsOf (sourceIp inc) hits)]> hits,
            fst (next inc s)), snd (next inc s))
     else ((<[sourceIp inc := Datatypes.S (hitsOf (sourceIp inc) hits)]> hits, s),
           limitExceeded)) /\
  app (faucetRoute env) inc (hits, w) =
    (if (hitsOf (sourceIp inc) hits <? 10)%nat
     then ((<[sourceIp inc := Datatypes.S (hitsOf (sourceIp inc) hits)]> hits,
            fst (handler env (request inc) w)), snd (handler env (request inc) w))
     else ((<[sourceIp inc := Datatypes.S (hitsOf (sourceIp inc) hits)]> hits, w),
           Send 429 "Too many requests, please try again later.")).
Proof.
  assert (forall T (nxt : Incoming -> T -> T * Response) (t : T),
             app nxt inc (hits, t) =
             (if (hitsOf (sourceIp inc) hits <? 10)%nat
              then ((<[sourceIp inc := Datatypes.S (hitsOf (sourceIp inc) hits)]> hits,
                     fst (nxt inc t)), snd (nxt inc t))
              else ((<[sourceIp inc := Datatypes.S (hitsOf (sourceIp inc) hits)]> hits, t),
                    limitExceeded))) as Happ.
  { intros T nxt t. unfold app. cbn [fst snd]. rewrite limiter_eq.
    change max with 10%nat.
    destruct (hitsOf (sourceIp inc) hits <? 10)%nat; [|reflexivity].
    destruct (nxt inc t); reflexivity. }
  repeat split; [| apply Happ | apply Happ].
  rewrite serveWindow_recording. cbn [List.app].
  pose proof (admitted_bound reqs (resetAll before) ip) as H.
  change max with 10%nat in H. lia.
Qed.

End RateLimitFacts.

(** * Further properties of the code *)

Import Ledger.

(** ** [payoutFSN] *)

(** X2.  An error of [payoutFSN] is the error of the account derivation or
    of [buildSendAssetTx], as it was thrown, or else, when signing or
    sending failed, a new error with the fixed text
    "Sending faucet gas failed: ": the message of the error that was caught
    is not part of it. *)
Theorem payout_errors (env : Env) (addr : string) (w w' : World) (e : exn) :
  payoutFSN env addr w = (w', inl e) ->
  privateKeyToAccount env = inl e \/
  (exists faucet,
      privateKeyToAccount env = inr faucet /\
      buildSendAssetTx env (payoutTx env faucet addr) = inl e) \/
  (e = Error "Sending faucet gas failed: " /\
   exists faucet g p cause,
     privateKeyToAccount env = inr faucet /\
     buildSendAssetTx env (payoutTx env faucet addr) = inr (g, p) /\
     (signTransaction env (withGas (payoutTx env faucet addr) g p) = inl cause \/
      exists rawTx,
        signTransaction env (withGas (payoutTx env faucet addr) g p) = inr rawTx /\
        sendSignedTransaction env rawTx = inl cause)).
Proof.
  unfold payoutFSN, tryCatch, bind, await, send, ret, throw.
  destruct (privateKeyToAccount env) as [e0|faucet] eqn:Hacc.
  { intros H. inversion H. now left. }
  destruct (buildSendAssetTx env (payoutTx env faucet addr)) as [e0|[g p]] eqn:Hgas.
  { intros H. inversion H; subst. right. left. eauto. }
  cbn [fst snd].
  destruct (signTransaction env _) as [cause|rawTx] eqn:Hsig.
  { intros H. inversion H; subst. right. right. split; [reflexivity|].
    exists faucet, g, p, cause. auto. }
  destruct (sendSignedTransaction env rawTx) as [cause|r] eqn:Hsend; [|discriminate].
  intros H. inversion H; subst. right. right. split; [reflexivity|].
  exists faucet, g, p, cause. repeat split; auto. right. eauto.
Qed.

Lemma payout_errors_witness :
  privateKeyToAccount Sample.outOfFunds
  = inl (Error "Sending faucet gas failed: ") \/
  (exists faucet,
      privateKeyToAccount Sample.outOfFunds = inr faucet /\
      buildSendAssetTx Sample.outOfFunds (payoutTx Sample.outOfFunds faucet Sample.bob)
      = inl (Error "Sending faucet gas failed: ")) \/
  (Error "Sending faucet gas failed: " = Error "Sending faucet gas failed: " /\
   exists faucet g p cause,
     privateKeyToAccount Sample.outOfFunds = inr faucet /\
     buildSendAssetTx Sample.outOfFunds (payoutTx Sample.outOfFunds faucet Sample.bob)
     = inr (g, p) /\
     (signTransaction Sample.outOfFunds
        (withGas (payoutTx Sample.outOfFunds faucet Sample.bob) g p) = inl cause \/
      exists rawTx,
        signTransaction Sample.outOfFunds
          (withGas (payoutTx Sample.outOfFunds faucet Sample.bob) g p) = inr rawTx /\
        sendSignedTransaction Sample.outOfFunds rawTx = inl cause)).
Proof.
  exact (payout_errors Sample.outOfFunds Sample.bob Sample.empty Sample.empty
           (Error "Sending faucet gas failed: ") eq_refl).
Defined.

(** ** What the handler never does *)



(** X5.  Once an address has been answered 200, no later request for it
    is paid, whatever requests were handled in between, one after the
    other, whatever the case
    of its letters, the IP it comes from, the time, and whatever the
    database and the chain answer or fail to answer: the request is
    answered 400 and the world stays as it is. *)
Theorem no_second_payout (env1 env2 : Env) (req1 req2 : Request)
        (rs : list (Env * Request)) (w0 w1 : World)
        (c : Z) (h s : string) (b1 b2 : parsed) (raw1 raw2 : string) :
  handler env1 req1 w0 = (w1, SendJson c h s) ->
  body req1 = Some b1 ->
  getProp b1 "walletAddress" = Some (JString raw1) ->
  body req2 = Some b2 ->
  getProp b2 "walletAddress" = Some (JString raw2) ->
  lower raw2 = lower raw1 ->
  fst (handler env2 req2 (serve rs w1)) = serve rs w1 /\
  statusCode (snd (handler env2 req2 (serve rs w1))) = 400.
Proof.
  intros H1 Hb1 Hp1 Hb2 Hp2 Hsame.
  destruct (paid_inv _ _ _ _ _ _ _ H1) as (b & raw & Hb & Hp & _ & _ & Hdb & _).
  rewrite Hb1 in Hb. inversion Hb; subst b. rewrite Hp1 in Hp. inversion Hp; subst raw.
  rewrite (claimed_wallet_answer env2 req2 (serve rs w1) b2 raw2
             (mkClaim (lower raw1) (clientIp req1) (dateNow env1)) Hb2 Hp2).
  - split; reflexivity.
  - apply (prefix_In _ _ _ (serve_keeps_records rs w1)).
    rewrite Hdb. apply in_or_app. right. now left.
  - now symmetry.
Qed.

Lemma no_second_payout_witness :
  fst (handler Sample.chainDown (Sample.post (JString Sample.ALICE) "203.0.113.9")
               (serve [(Sample.later, Sample.post (JString Sample.bob) "203.0.113.9")]
                      Sample.afterAlice))
  = serve [(Sample.later, Sample.post (JString Sample.bob) "203.0.113.9")]
          Sample.afterAlice /\
  statusCode (snd (handler Sample.chainDown
                     (Sample.post (JString Sample.ALICE) "203.0.113.9")
                     (serve [(Sample.later,
                              Sample.post (JString Sample.bob) "203.0.113.9")]
                            Sample.afterAlice))) = 400.
Proof.
  exact (no_second_payout Sample.calm Sample.chainDown
           (Sample.post (JString Sample.alice) "198.51.100.4")
           (Sample.post (JString Sample.ALICE) "203.0.113.9")
           [(Sample.later, Sample.post (JString Sample.bob) "203.0.113.9")]
           Sample.empty Sample.afterAlice 200 "0x7a11" (msgSuccess Sample.alice)
           (PObject [("walletAddress", JString Sample.alice)])
           (PObject [("walletAddress", JString Sample.ALICE)])
           Sample.alice Sample.ALICE eq_refl eq_refl eq_refl eq_refl eq_refl eq_refl).
Defined.

(** ** What the handler reads of a request *)

Lemma handler_ext (env : Env) (req req' : Request) (w : World) :
  body req = body req' -> clientIp req = clientIp req' ->
  handler env req w = handler env req' w.
Proof.
  intros Hb Hip. unfold handler, tryBlock. rewrite Hb, Hip. reflexivity.
Qed.

(** X6.  The IP of a request is the forwarded header whenever the header
    is there and not empty: the address of the socket then has no effect
    on the answer or on the record written; an empty header counts as no
    header. *)
Theorem forwarded_header_overrides (env : Env) (w : World) (b : option parsed)
        (h socket socket' : string) :
  h <> "" ->
  handler env {| body := b; xForwardedFor := Some h; remoteAddress := socket |} w
  = handler env {| body := b; xForwardedFor := Some h; remoteAddress := socket' |} w /\
  clientIp {| body := b; xForwardedFor := Some h; remoteAddress := socket |} = h /\
  handler env {| body := b; xForwardedFor := Some ""; remoteAddress := socket |} w
  = handler env {| body := b; xForwardedFor := None; remoteAddress := socket |} w.
Proof.
  intros Hh. apply String.eqb_neq in Hh.
  repeat split.
  - apply handler_ext; [reflexivity|]. unfold clientIp. cbn. now rewrite Hh.
  - unfold clientIp. cbn. now rewrite Hh.
Qed.

Lemma forwarded_header_overrides_witness :
  clientIp {| body := None; xForwardedFor := Some "203.0.113.9";
              remoteAddress := "10.0.0.1" |} = "203.0.113.9".
Proof.
  refine (proj1 (proj2 (forwarded_header_overrides Sample.calm Sample.empty None
                          "203.0.113.9" "10.0.0.1" "10.0.0.2" _))).
  discriminate.
Defined.

(** ** The ledger over a sequence of requests *)

(** X7.  Stored addresses are normalised and validated: when the records
    a sequence of requests starts from are of lower-case addresses that
    pass the validator, and every run validates with that validator, the
    same holds of the records after the sequence. *)
Theorem stored_addresses (f : string -> bool) (rs : list (Env * Request)) (w : World) :
  normalised (db w) ->
  validated f (db w) ->
  sameValidator f rs ->
  normalised (db (serve rs w)) /\ validated f (db (serve rs w)).
Proof.
  unfold normalised, validated, sameValidator.
  revert w. induction rs as [|[env req] rs IH]; intros w Hn Hv Hf; cbn; [now split|].
  pose proof (Forall_inv Hf) as Hhere. pose proof (Forall_inv_tail Hf) as Hrest.
  cbn in Hhere.
  apply IH; [| |exact Hrest].
  - destruct (handler_step env req w) as [->|(a & tx & _ & Hl & _ & _ & _ & ->)];
      [exact Hn|].
    destruct (updateFails env); [exact Hn|].
    apply Forall_app. split; [exact Hn | now constructor].
  - destruct (handler_step env req w) as [->|(a & tx & Ha & _ & _ & _ & _ & ->)];
      [exact Hv|].
    destruct (updateFails env); [exact Hv|].
    apply Forall_app. split; [exact Hv|]. constructor; [|constructor].
    cbn. now rewrite <- Hhere.
Qed.

Lemma stored_addresses_witness :
  normalised (db (serve [(Sample.calm, Sample.post (JString Sample.ALICE) "198.51.100.4")]
                        Sample.empty)) /\
  validated Sample.lowerHexAddress
    (db (serve [(Sample.calm, Sample.post (JString Sample.ALICE) "198.51.100.4")]
               Sample.empty)).
Proof.
  apply (stored_addresses Sample.lowerHexAddress
           [(Sample.calm, Sample.post (JString Sample.ALICE) "198.51.100.4")]
           Sample.empty).
  - constructor.
  - constructor.
  - repeat constructor.
Defined.

Lemma recipients_step (env : Env) (req : Request) (w : World) :
  recipients (fst (handler env req w)) = recipients w \/
  exists a,
    recipients (fst (handler env req w)) = recipients w ++ [a] /\
    (forall r, In r (db w) -> walletAddress r <> a) /\
    db (fst (handler env req w)) =
      match updateFails env with
      | Some _ => db w
      | None => db w ++ [mkClaim a (clientIp req) (dateNow env)]
      end.
Proof.
  unfold recipients.
  destruct (handler_step env req w) as [->|(a & tx & _ & _ & Hw & Hto & -> & Hdb)];
    [now left|].
  right. exists a. rewrite List.map_app. cbn. rewrite Hto. auto.
Qed.

(** X8.  No record without a payment: when every record a sequence of
    requests starts from is of an address that has been paid, so is every
    record after the sequence. *)
Theorem recorded_implies_paid (rs : list (Env * Request)) (w : World) :
  recordedPaid w -> recordedPaid (serve rs w).
Proof.
  unfold recordedPaid.
  revert w. induction rs as [|[env req] rs IH]; intros w Hw; cbn; [exact Hw|].
  apply IH.
  destruct (recipients_step env req w) as [Hsame|(a & Hrec & _ & Hdb)].
  - rewrite Hsame.
    destruct (handler_step env req w) as [->|(a & tx & _ & _ & _ & _ & Hbr & _)];
      [exact Hw|].
    exfalso. unfold recipients in Hsame. rewrite Hbr, List.map_app in Hsame.
    apply (f_equal (@length string)) in Hsame.
    rewrite length_app in Hsame. cbn in Hsame. lia.
  - rewrite Hrec, Hdb.
    assert (Forall (fun r => In (walletAddress r) (recipients w ++ [a])) (db w)) as Hold.
    { eapply Forall_impl; [exact Hw|]. cbn. intros r Hr. apply in_or_app. now left. }
    destruct (updateFails env); [exact Hold|].
    apply Forall_app. split; [exact Hold|]. constructor; [|constructor].
    cbn. apply in_or_app. right. now left.
Qed.

Lemma recorded_implies_paid_witness :
  recordedPaid
    (serve [(Sample.calm, Sample.post (JString Sample.ALICE) "198.51.100.4");
            (Sample.later, Sample.post (JString Sample.bob) "203.0.113.9")]
           Sample.empty).
Proof.
  apply (recorded_implies_paid
           [(Sample.calm, Sample.post (JString Sample.ALICE) "198.51.100.4");
            (Sample.later, Sample.post (JString Sample.bob) "203.0.113.9")]
           Sample.empty).
  constructor.
Defined.




(** ** The upsert and the two lookups *)

Lemma find_skip {A : Type} (f : A -> bool) (l1 l2 : list A) :
  (forall x, In x l1 -> f x = false) -> List.find f (l1 ++ l2) = List.find f l2.
Proof.
  induction l1 as [|x l1 IH]; intros H; cbn; [reflexivity|].
  rewrite (H x (or_introl eq_refl)). apply IH. intros y Hy. apply H. now right.
Qed.

Lemma find_app_split {A : Type} (f : A -> bool) (l1 l2 : list A) :
  List.find f (l1 ++ l2) =
  match List.find f l1 with Some x => Some x | None => List.find f l2 end.
Proof.
  induction l1 as [|x l1 IH]; cbn; [reflexivity|].
  destruct (f x); [reflexivity | exact IH].
Qed.

Lemma upsert_shape (w ip : string) (t : Z) (c : Collection) :
  exists before after,
    (forall x, In x before -> byPair w ip x = false) /\
    updateOne_upsert w ip t c = before ++ mkClaim w ip t :: after /\
    (c = before /\ after = [] \/
     exists r, pairOf r = (w, ip) /\ c = before ++ r :: after).
Proof.
  destruct (List.existsb (byPair w ip) c) eqn:E.
  - unfold updateOne_upsert. rewrite E.
    destruct (setFirst_split w ip t c E) as (before & r & after & Hc & Hr & Hb & Hs).
    exists before, after. repeat split; eauto.
  - exists c, []. rewrite (upsert_absent _ _ _ _ E). repeat split; auto.
    intros x Hx. apply not_true_is_false. intros Hp.
    assert (List.existsb (byPair w ip) c = true) by (apply existsb_exists; eauto).
    congruence.
Qed.

(** X11.  After the upsert of a claim, the lookup of its pair returns the
    record with the date just written, the wallet lookup finds a record,
    and the IP lookup finds one for every window that the date falls in. *)
Theorem upsert_then_lookup (w ip : string) (t since : Z) (c : Collection) :
  since <= t ->
  findOne (byPair w ip) (updateOne_upsert w ip t c) = Some (mkClaim w ip t) /\
  found (findOne (byWallet w) (updateOne_upsert w ip t c)) = true /\
  found (findOne (byIpSince ip since) (updateOne_upsert w ip t c)) = true.
Proof.
  intros Hsince.
  destruct (upsert_shape w ip t c) as (before & after & Hb & Hu & _).
  assert (In (mkClaim w ip t) (updateOne_upsert w ip t c)) as Hin
    by (rewrite Hu; apply in_or_app; right; now left).
  repeat split.
  - rewrite Hu. unfold findOne. rewrite (find_skip _ _ _ Hb). cbn.
    unfold byPair. cbn. now rewrite !String.eqb_refl.
  - now apply (byWallet_found _ _ _ Hin).
  - now apply (byIpSince_found _ _ _ _ Hin).
Qed.

Lemma upsert_then_lookup_witness :
  findOne (byPair Sample.alice "198.51.100.4")
          (updateOne_upsert Sample.alice "198.51.100.4" 1700000000250 (db Sample.visited))
  = Some (mkClaim Sample.alice "198.51.100.4" 1700000000250) /\
  found (findOne (byWallet Sample.alice)
           (updateOne_upsert Sample.alice "198.51.100.4" 1700000000250
                             (db Sample.visited))) = true /\
  found (findOne (byIpSince "198.51.100.4" (1700000060000 - ONE_DAY_MS))
           (updateOne_upsert Sample.alice "198.51.100.4" 1700000000250
                             (db Sample.visited))) = true.
Proof.
  apply (upsert_then_lookup Sample.alice "198.51.100.4" 1700000000250
           (1700000060000 - ONE_DAY_MS) (db Sample.visited)).
  vm_compute. discriminate.
Defined.

(** X12.  The upsert of one pair leaves the lookup of every other pair as
    it was. *)
Theorem upsert_other_pair (w ip w' ip' : string) (t : Z) (c : Collection) :
  (w', ip') <> (w, ip) ->
  findOne (byPair w' ip') (updateOne_upsert w ip t c) = findOne (byPair w' ip') c.
Proof.
  intros Hne.
  assert (forall r, pairOf r = (w, ip) -> byPair w' ip' r = false) as Hoff.
  { intros r Hr. apply not_true_is_false. intros Hp.
    apply byPair_pairOf in Hp. congruence. }
  destruct (upsert_shape w ip t c) as (before & after & _ & Hu & [[-> ->]|(r & Hr & ->)]);
    rewrite Hu; unfold findOne; rewrite !find_app_split; cbn.
  - rewrite (Hoff (mkClaim w ip t) eq_refl).
    destruct (List.find (byPair w' ip') before); reflexivity.
  - rewrite (Hoff (mkClaim w ip t) eq_refl), (Hoff r Hr). reflexivity.
Qed.

Lemma upsert_other_pair_witness :
  findOne (byPair Sample.alice "192.0.2.7")
          (updateOne_upsert Sample.bob "192.0.2.7" 1700000000250 (db Sample.visited))
  = findOne (byPair Sample.alice "192.0.2.7") (db Sample.visited).
Proof.
  apply (upsert_other_pair Sample.bob "192.0.2.7" Sample.alice "192.0.2.7"
           1700000000250 (db Sample.visited)).
  discriminate.
Defined.

(** ** The wiring of the keeper *)

Section WiringFacts.
Import Keeper Wiring.

Lemma keepWeb3Alive_wired (s : State) :
  listening s = List.seq 0 (constructed s) -> wired (keepWeb3Alive s).
Proof.
  intros Hl. unfold wired, keepWeb3Alive.
  cbn [listening constructed provider web3 ofProvider].
  rewrite Hl, seq_S. auto.
Qed.

Lemma step_wired (s : State) (ev : Event) : wired s -> wired (step s ev).
Proof.
  intros (Hl & Hc & Hw).
  destruct ev as [p|p|p|]; cbn; try destruct (hears s p); cbn;
    try (repeat split; assumption).
  destruct (timers s); [repeat split; assumption|].
  now apply keepWeb3Alive_wired.
Qed.

Lemma run_wired (evs : list Event) (s : State) : wired s -> wired (run evs s).
Proof.
  revert s. induction evs as [|ev evs IH]; intros s Hs; cbn; [exact Hs|].
  apply IH. now apply step_wired.
Qed.

Lemma start_wired : wired start.
Proof. unfold start. now apply keepWeb3Alive_wired. Qed.

(** X13.  The keeper never detaches a listener and never goes back to an
    older provider: after any history, the providers it listens to are all
    those constructed so far, the current provider is the one constructed
    last and [web3] is built on it; so an event of a provider is heard
    exactly when that provider has been constructed, superseded or not. *)
Theorem keeper_wiring (evs : list Event) (p : nat) :
  wired (run evs start) /\
  (hears (run evs start) p = true <-> (p < constructed (run evs start))%nat).
Proof.
  pose proof (run_wired evs start start_wired) as Hw.
  split; [exact Hw|].
  destruct Hw as (Hl & _). rewrite hears_spec, Hl, in_seq. lia.
Qed.

End WiringFacts.
